(** * betterstack_cli: the page fetcher and the pagination traversal

    A shallow embedding of [fetch_incidents_page] and [fetch_all_incidents]
    of [betterstack_cli.py].  Python values are an untyped inductive type,
    exceptions are an error type, the network is an explicit world that is
    threaded through every call, and the [while True] loop runs on fuel. *)

From Stdlib Require Import ZArith List String Ascii Bool Lia.
Import ListNotations.
Set Warnings "-register-all".
Local Open Scope string_scope.
Local Open Scope list_scope.

(* ===================================================================== *)
(** ** Python values *)
(* ===================================================================== *)

Module Py.

(** A Python float: [m * 2^e], an infinity, or a NaN.  Only its truth value
    is ever looked at. *)
Inductive pyfloat : Type :=
| FFinite (m e : Z)
| FInf (negative : bool)
| FNaN.

(** What [response.json()] can return, and what a caller can pass as an
    argument.  A dict keeps its entries in insertion order, which is the
    order in which iterating over it yields its keys. *)
Inductive value : Type :=
| PNone
| PBool (b : bool)
| PInt (n : Z)
| PFloat (x : pyfloat)
| PStr (s : string)
| PList (items : list value)
| PDict (entries : list (string * value)).

(** The exceptions that can leave the two functions. *)
Inductive transport_failure : Type :=
| ConnectionError
| ReadTimeout
| SSLError
| InvalidURL.

Inductive exn : Type :=
| HTTPError (status : Z)
| RequestFailed (why : transport_failure)
| JSONDecodeError
| ValueError
| RecursionError
| AttributeError
| TypeError.

Inductive outcome (A : Type) : Type :=
| Return (a : A)
| Raise (e : exn).
Arguments Return {A} a.
Arguments Raise {A} e.

(** [bool(v)]: what [if v:] and [not v] test. *)
Definition truthy (v : value) : bool :=
  match v with
  | PNone => false
  | PBool b => b
  | PInt n => negb (n =? 0)%Z
  | PFloat (FFinite m _) => negb (m =? 0)%Z
  | PFloat _ => true
  | PStr s => negb (s =? "")
  | PList items => match items with [] => false | _ :: _ => true end
  | PDict entries => match entries with [] => false | _ :: _ => true end
  end.

(** [v == s] for a string literal [s]: a value that is not a string is not
    equal to it. *)
Definition eq_str (v : value) (s : string) : bool :=
  match v with
  | PStr t => (t =? s)
  | _ => false
  end.

(** Lookup of a key among the entries of a dict. *)
Fixpoint lookup (k : string) (entries : list (string * value)) : option value :=
  match entries with
  | [] => None
  | (k', v) :: rest => if (k' =? k) then Some v else lookup k rest
  end.

(** [d[k] = v] on the entries of a dict: an existing key keeps its place,
    a new key goes last. *)
Fixpoint setitem (entries : list (string * value)) (k : string) (v : value)
  : list (string * value) :=
  match entries with
  | [] => [(k, v)]
  | (k', v') :: rest =>
      if (k' =? k) then (k', v) :: rest else (k', v') :: setitem rest k v
  end.

(** [obj.get(k, default)]: only a dict has the method. *)
Definition get (obj : value) (k : string) (default : value) : outcome value :=
  match obj with
  | PDict entries =>
      match lookup k entries with
      | Some v => Return v
      | None => Return default
      end
  | _ => Raise AttributeError
  end.

(** A [str] is held as its UTF-8 bytes.  A byte [10xxxxxx] continues the
    character that the bytes before it began. *)
Definition is_continuation (c : ascii) : bool :=
  (128 <=? nat_of_ascii c)%nat && (nat_of_ascii c <? 192)%nat.

(** Whether a string goes on with the character that was begun before
    it. *)
Definition continues (s : string) : bool :=
  match s with
  | EmptyString => false
  | String c _ => is_continuation c
  end.

(** The characters (code points) of a string, each as a string: a byte that
    is followed by a continuation byte takes it, and the ones after it,
    along. *)
Fixpoint code_points (s : string) : list string :=
  match s with
  | EmptyString => []
  | String c rest =>
      if continues rest
      then
        match code_points rest with
        | chunk :: chunks => String c chunk :: chunks
        | [] => [String c EmptyString]
        end
      else String c EmptyString :: code_points rest
  end.

Definition chars (s : string) : list value := map PStr (code_points s).

(** [iter(v)] run to the end: the elements of a list, the characters of a
    string, the keys of a dict; nothing else among these values is
    iterable. *)
Definition iterate (v : value) : outcome (list value) :=
  match v with
  | PList items => Return items
  | PStr s => Return (chars s)
  | PDict entries => Return (map (fun kv => PStr (fst kv)) entries)
  | _ => Raise TypeError
  end.

(** [acc.extend(v)] *)
Definition extend (acc : list value) (v : value) : outcome (list value) :=
  match iterate v with
  | Return items => Return (acc ++ items)
  | Raise e => Raise e
  end.

Definition is_dict (v : value) : bool :=
  match v with
  | PDict _ => true
  | _ => false
  end.

End Py.
Export Py.

(* ===================================================================== *)
(** ** The HTTP layer *)
(* ===================================================================== *)

Module Http.

(** One call of [requests.get]: the URL as passed, the headers, and the
    [params] keyword ([None] when the call does not give it). *)
Record request : Type := mk_request {
  req_url : value;
  req_headers : list (string * string);
  req_params : option (list (string * value))
}.

(** Why the decoder gives up on a body before it has read it through: an
    integer literal with more digits than the interpreter converts
    ([ValueError]), or brackets nested deeper than its stack goes
    ([RecursionError]). *)
Inductive refusal : Type :=
| IntegerTooLong
| NestedTooDeep.

(** The body of a response, by what it is and what [json()] makes of it: a
    JSON text that decodes to [v]; a text that is not JSON (it holds [NaN]
    or [Infinity]) and that the decoder takes all the same; a text that is
    not JSON and that the decoder rejects; a text, JSON or not, on which
    the decoder gives up. *)
Inductive body : Type :=
| Json (v : value)
| Lenient (v : value)
| Malformed
| Refused (json : bool) (why : refusal).


(** What [json()] does with the body. *)
Definition decode (b : body) : outcome value :=
  match b with
  | Json v => Return v
  | Lenient v => Return v
  | Malformed => Raise JSONDecodeError
  | Refused _ IntegerTooLong => Raise ValueError
  | Refused _ NestedTooDeep => Raise RecursionError
  end.

(** A response object as the client uses it: its status code and its
    body. *)
Record response : Type := mk_response {
  status_code : Z;
  content : body
}.

(** The status codes on which [Response.raise_for_status] raises: the
    client errors 4xx and the server errors 5xx. *)
Definition error_status (s : Z) : bool := ((400 <=? s) && (s <? 600))%Z.

Inductive reply : Type :=
| Failed (why : transport_failure)
| Responded (r : response).

(** The network and the library in front of it: [http_get] answers one
    request and moves the world on. *)
Class HttpLayer (W : Type) : Type := {
  http_get : W -> request -> reply * W
}.

End Http.
Export Http.

(* ===================================================================== *)
(** ** The client *)
(* ===================================================================== *)

Definition BASE_URL : string :=
  "https://uptime.betterstack.com/api/v2/incidents".

(** The keyword arguments of [fetch_all_incidents]. *)
Record filters : Type := mk_filters {
  from_date : value;
  to_date : value;
  monitor_id : value;
  heartbeat_id : value;
  per_page : value
}.

(** The spec's two classes of fetch errors. *)
Inductive error_class : Type :=
| HttpError
| DecodeError.

Definition classify (e : exn) : option error_class :=
  match e with
  | HTTPError _ => Some HttpError
  | RequestFailed _ => Some HttpError
  | JSONDecodeError => Some DecodeError
  | ValueError => None
  | RecursionError => None
  | AttributeError => None
  | TypeError => None
  end.

(** The world, and the requests sent so far (oldest first). *)
Record state (W : Type) : Type := mk_state {
  world : W;
  sent : list request
}.
Arguments mk_state {W} world sent.
Arguments world {W} s.
Arguments sent {W} s.

Section Client.

Context {W : Type} `{HttpLayer W}.

(** Computations that read and move the state and may raise. *)
Definition M (A : Type) : Type := state W -> outcome A * state W.

Definition ret {A : Type} (a : A) : M A := fun st => (Return a, st).

Definition raise {A : Type} (e : exn) : M A := fun st => (Raise e, st).

Definition bind {A B : Type} (m : M A) (k : A -> M B) : M B :=
  fun st =>
    match m st with
    | (Return a, st') => k a st'
    | (Raise e, st') => (Raise e, st')
    end.

Definition lift {A : Type} (o : outcome A) : M A := fun st => (o, st).

Notation "x <- m ;; k" := (bind m (fun x => k))
  (at level 61, m at next level, right associativity).
Notation "m ;;; k" := (bind m (fun _ => k))
  (at level 61, right associativity).

(** [requests.get(url, headers=headers, params=params)] *)
Definition requests_get (url : value) (headers : list (string * string))
    (params : option (list (string * value))) : M response :=
  fun st =>
    let req := mk_request url headers params in
    let '(r, w') := http_get (world st) req in
    let st' := mk_state w' (sent st ++ [req]) in
    match r with
    | Failed why => (Raise (RequestFailed why), st')
    | Responded resp => (Return resp, st')
    end.

(** [response.raise_for_status()] *)
Definition raise_for_status (resp : response) : M unit :=
  if error_status (status_code resp)
  then raise (HTTPError (status_code resp))
  else ret tt.

(** [response.json()] *)
Definition json (resp : response) : M value :=
  lift (decode (content resp)).

Definition fetch_incidents_page (api_key : string)
    (url page per_page from_date to_date monitor_id heartbeat_id : value)
  : M value :=
  let url := if negb (truthy url) then PStr BASE_URL else url in
  let headers :=
    [("Authorization", String.append "Bearer " api_key);
     ("Content-Type", "application/json")] in
  let params := [] in
  let params := if truthy page then setitem params "page" page else params in
  let params :=
    if truthy per_page then setitem params "per_page" per_page else params in
  let params :=
    if truthy from_date then setitem params "from" from_date else params in
  let params :=
    if truthy to_date then setitem params "to" to_date else params in
  let params :=
    if truthy monitor_id then setitem params "monitor_id" monitor_id
    else params in
  let params :=
    if truthy heartbeat_id then setitem params "heartbeat_id" heartbeat_id
    else params in
  response <-
    (if eq_str url BASE_URL
     then requests_get url headers (Some params)
     else requests_get url headers None) ;;
  raise_for_status response ;;;
  json response.

(** The request that [fetch_incidents_page] hands to [requests.get]: the
    same steps up to the call, without the call. *)
Definition request_of (api_key : string)
    (url page per_page from_date to_date monitor_id heartbeat_id : value)
  : request :=
  let url := if negb (truthy url) then PStr BASE_URL else url in
  let headers :=
    [("Authorization", String.append "Bearer " api_key);
     ("Content-Type", "application/json")] in
  let params := [] in
  let params := if truthy page then setitem params "page" page else params in
  let params :=
    if truthy per_page then setitem params "per_page" per_page else params in
  let params :=
    if truthy from_date then setitem params "from" from_date else params in
  let params :=
    if truthy to_date then setitem params "to" to_date else params in
  let params :=
    if truthy monitor_id then setitem params "monitor_id" monitor_id
    else params in
  let params :=
    if truthy heartbeat_id then setitem params "heartbeat_id" heartbeat_id
    else params in
  if eq_str url BASE_URL
  then mk_request url headers (Some params)
  else mk_request url headers None.

(** What the rest of [fetch_incidents_page] makes of the reply. *)
Definition reply_outcome (r : reply) : outcome value :=
  match r with
  | Failed why => Raise (RequestFailed why)
  | Responded resp =>
      if error_status (status_code resp)
      then Raise (HTTPError (status_code resp))
      else decode (content resp)
  end.

(** The call of the loop: only [url] is given, the rest are defaults. *)
Definition fetch_next (api_key : string) (next_url : value) : M value :=
  fetch_incidents_page api_key next_url (PInt 1) (PInt 50)
    PNone PNone PNone PNone.

(** The call before the loop: no [url], [page=1], the caller's filters. *)
Definition fetch_first (api_key : string) (f : filters) : M value :=
  fetch_incidents_page api_key PNone (PInt 1) (per_page f)
    (from_date f) (to_date f) (monitor_id f) (heartbeat_id f).

(** How one pass through the body of [while True] ends. *)
Inductive loop_exit : Type :=
| Break (all_incidents : list value)
| Again (all_incidents : list value) (current_page_data : value).

Definition loop_body (api_key : string) (all_incidents : list value)
    (current_page_data : value) : M loop_exit :=
  incidents_page <- lift (get current_page_data "data" (PList [])) ;;
  all_incidents <- lift (extend all_incidents incidents_page) ;;
  pagination <- lift (get current_page_data "pagination" (PDict [])) ;;
  next_url <- lift (get pagination "next" PNone) ;;
  if negb (truthy next_url)
  then ret (Break all_incidents)
  else
    current_page_data <- fetch_next api_key next_url ;;
    ret (Again all_incidents current_page_data).

(** The loop, for at most [fuel] passes.  [None] is a loop that is still
    running when the fuel is spent; the state is the one reached then. *)
Fixpoint while_true (fuel : nat) (api_key : string)
    (all_incidents : list value) (current_page_data : value) (st : state W)
  : option (outcome (list value)) * state W :=
  match fuel with
  | O => (None, st)
  | S fuel' =>
      match loop_body api_key all_incidents current_page_data st with
      | (Raise e, st') => (Some (Raise e), st')
      | (Return (Break all_incidents'), st') =>
          (Some (Return all_incidents'), st')
      | (Return (Again all_incidents' current_page_data'), st') =>
          while_true fuel' api_key all_incidents' current_page_data' st'
      end
  end.

Definition fetch_all_incidents (fuel : nat) (api_key : string) (f : filters)
    (st : state W) : option (outcome (list value)) * state W :=
  let all_incidents := [] in
  match fetch_first api_key f st with
  | (Raise e, st') => (Some (Raise e), st')
  | (Return current_page_data, st') =>
      while_true fuel api_key all_incidents current_page_data st'
  end.

(** *** Reading one page

    What a pass through the loop reads off the page it holds: the incidents
    it appends, and the next link it tests. *)

Definition page_incidents (page : value) : outcome (list value) :=
  match get page "data" (PList []) with
  | Return incidents_page => iterate incidents_page
  | Raise e => Raise e
  end.

Definition page_next (page : value) : outcome value :=
  match get page "pagination" (PDict []) with
  | Return pagination => get pagination "next" PNone
  | Raise e => Raise e
  end.

(** [follows api_key page st ds page' st']: holding [page] in state [st],
    the traversal reads pages whose incidents are [ds], each with a next
    link that is not empty and whose fetch succeeds, and then holds [page']
    in state [st']. *)
Inductive follows (api_key : string)
  : value -> state W -> list (list value) -> value -> state W -> Prop :=
| follows_here page st : follows api_key page st [] page st
| follows_next page st d next_url page1 st1 ds page' st' :
    page_incidents page = Return d ->
    page_next page = Return next_url ->
    truthy next_url = true ->
    fetch_next api_key next_url st = (Return page1, st1) ->
    follows api_key page1 st1 ds page' st' ->
    follows api_key page st (d :: ds) page' st'.

(** The page [page] ends a traversal: its incidents can be appended and its
    next link is absent or empty. *)
Definition last_page (page : value) (d : list value) : Prop :=
  page_incidents page = Return d /\
  exists next_url, page_next page = Return next_url /\ truthy next_url = false.

(** The entries of a page that names no further page: [pagination] is
    absent, or its [next] is absent, null or the empty string. *)
Definition next_absent_or_empty (entries : list (string * value)) : Prop :=
  lookup "pagination" entries = None \/
  exists pagination,
    lookup "pagination" entries = Some (PDict pagination) /\
    (lookup "next" pagination = None \/
     lookup "next" pagination = Some PNone \/
     lookup "next" pagination = Some (PStr "")).

End Client.

Arguments M W : clear implicits.

(* ===================================================================== *)
(** ** The claims as the spec words them, and servers to run against *)
(* ===================================================================== *)

(** The spec's wording of the first request: against the base endpoint, with
    [page = 1], [per_page] the caller's page size, and each optional filter
    present exactly when the caller gave one. *)
Definition sent_iff_supplied (params : list (string * value)) (k : string)
    (arg : value) : Prop :=
  match arg with
  | PNone => lookup k params = None
  | _ => lookup k params = Some arg
  end.

Definition first_request_as_specified (f : filters) (req : request) : Prop :=
  req_url req = PStr BASE_URL /\
  exists params,
    req_params req = Some params /\
    lookup "page" params = Some (PInt 1) /\
    lookup "per_page" params = Some (per_page f) /\
    sent_iff_supplied params "from" (from_date f) /\
    sent_iff_supplied params "to" (to_date f) /\
    sent_iff_supplied params "monitor_id" (monitor_id f) /\
    sent_iff_supplied params "heartbeat_id" (heartbeat_id f).

(** The spec's wording of the invariant on continuation fetches: every
    request after the first carries no query parameters. *)
Definition continuations_without_params (reqs : list request) : Prop :=
  Forall (fun req => req_params req = None) (tl reqs).

(** What every request after the first looks like in the code: the URL is a
    link that was not empty, and the query is the fetcher's defaults when
    that link is the base endpoint and absent otherwise. *)
Definition continuation_request (req : request) : Prop :=
  truthy (req_url req) = true /\
  req_params req =
    if eq_str (req_url req) BASE_URL
    then Some [("page", PInt 1); ("per_page", PInt 50)]
    else None.

(** What the code does to an argument on the way into [params]. *)
Definition param_of (arg : value) : option value :=
  if truthy arg then Some arg else None.

Definition no_filters : filters :=
  mk_filters PNone PNone PNone PNone (PInt 50).

Definition page_of (data : list value) (next_url : value) : value :=
  PDict [("data", PList data); ("pagination", PDict [("next", next_url)])].

Definition ok_reply (body : value) : reply :=
  Responded (mk_response 200 (Json body)).

Definition incident (id : Z) : value := PDict [("id", PInt id)].

(** A server that plays a script: one reply per request, in order, whatever
    is asked; the connection fails once the script is over.  The library
    *)
#[export] Instance scripted : HttpLayer (list reply) := {
  http_get w _ :=
    match w with
    | [] => (Failed ConnectionError, [])
    | r :: w' => (r, w')
    end
}.

(** A server that never stops: every reply is a page of one incident that
    points to a further page. *)
#[export] Instance endless : HttpLayer unit := {
  http_get w _ :=
    (ok_reply (page_of [incident 7] (PStr "https://example.org/more")), w)
}.

Definition start {W : Type} (w : W) : state W := mk_state w [].

(** The spec's example: the caller asks for monitor 42, two per page; the
    first page holds incidents 1 and 2 and points to [U2], the page at [U2]
    holds incident 3 and has a null next link. *)
Definition monitor_42 : filters :=
  mk_filters PNone PNone (PInt 42) PNone (PInt 2).

Definition first_of_two : value :=
  page_of [incident 1; incident 2] (PStr "U2").

Definition second_of_two : value := page_of [incident 3] PNone.

Definition two_pages : list reply :=
  [ok_reply first_of_two; ok_reply second_of_two].

(** The same first page, and then a server error. *)
Definition page_then_error : list reply :=
  [ok_reply first_of_two; Responded (mk_response 503 Malformed)].

(** A first page whose next link is the base endpoint itself. *)
Definition back_to_base : value := page_of [incident 1] (PStr BASE_URL).

Definition base_then_end : list reply :=
  [ok_reply back_to_base; ok_reply second_of_two].

(** A caller who passes the monitor id 0. *)
Definition monitor_0 : filters :=
  mk_filters PNone PNone (PInt 0) PNone (PInt 50).

(* ===================================================================== *)
(** ** The command line *)
(* ===================================================================== *)

Module Cli.

(** What [parser.parse_args()] returns: the options as [argparse] leaves
    them, a string or an integer when the option was given and [None]
    when it was not; [per_page] has the default 50. *)
Record namespace : Type := mk_namespace {
  api_key : option string;
  from_date : option string;
  to_date : option string;
  monitor_id : option Z;
  heartbeat_id : option Z;
  per_page : Z
}.

End Cli.

(** A string or [None], and an integer or [None], as Python values. *)
Definition of_str (o : option string) : value :=
  match o with
  | Some s => PStr s
  | None => PNone
  end.

Definition of_int (o : option Z) : value :=
  match o with
  | Some n => PInt n
  | None => PNone
  end.

(** The keyword arguments [main] passes to [fetch_all_incidents]. *)
Definition filters_of (args : Cli.namespace) : filters :=
  mk_filters (of_str (Cli.from_date args)) (of_str (Cli.to_date args))
    (of_int (Cli.monitor_id args)) (of_int (Cli.heartbeat_id args))
    (PInt (Cli.per_page args)).

(** [a or b] *)
Definition py_or (a b : option string) : option string :=
  if truthy (of_str a) then a else b.

(** What an f-string makes of a string or [None]. *)
Definition str_of (o : option string) : string :=
  match o with
  | Some s => s
  | None => "None"
  end.

Definition NO_KEY_MESSAGE : string :=
  "Error: No API key provided (use --api-key or set BETTERSTACK_API_KEY).".

(** How [main] ends: it returns, it leaves through [sys.exit], or an
    exception leaves it uncaught. *)
Inductive ending : Type :=
| Returned
| SystemExit (code : Z)
| Uncaught (e : exn).

(** What [main] prints: on [stdout] the values it dumps as JSON, one per
    [print], and on [stderr] the lines it writes there. *)
Record console : Type := mk_console {
  stdout : list value;
  stderr : list string
}.

Section CommandLine.

Context {W : Type} `{HttpLayer W}.

(** [main], after [parse_args]: [args] is the parsed command line and
    [getenv] is [os.getenv]. *)
Definition main (fuel : nat) (args : Cli.namespace)
    (getenv : string -> option string) (st : state W)
  : option ending * console * state W :=
  let api_key := py_or (Cli.api_key args) (getenv "BETTERSTACK_API_KEY") in
  if negb (truthy (of_str api_key))
  then (Some (SystemExit 1), mk_console [] [NO_KEY_MESSAGE], st)
  else
    match fetch_all_incidents fuel (str_of api_key) (filters_of args) st with
    | (None, st') => (None, mk_console [] [], st')
    | (Some (Raise e), st') => (Some (Uncaught e), mk_console [] [], st')
    | (Some (Return incidents), st') =>
        (Some Returned, mk_console [PList incidents] [], st')
    end.

End CommandLine.

(** The headers of every request. *)
Definition headers_of (api_key : string) : list (string * string) :=
  [("Authorization", String.append "Bearer " api_key);
   ("Content-Type", "application/json")].

(** No key on the command line, or an empty one. *)
Definition no_key (o : option string) : Prop := o = None \/ o = Some "".

(** The key [main] works with: the one of the command line when it is not
    empty, else the one of the environment when that is not empty. *)
Definition resolved_key (args : Cli.namespace)
    (getenv : string -> option string) (k : string) : Prop :=
  k <> "" /\
  (Cli.api_key args = Some k \/
   (no_key (Cli.api_key args) /\ getenv "BETTERSTACK_API_KEY" = Some k)).

(** Null, a boolean or a number. *)
Definition scalar (v : value) : Prop :=
  match v with
  | PNone | PBool _ | PInt _ | PFloat _ => True
  | PStr _ | PList _ | PDict _ => False
  end.

(** The values that [if not v] lets through: null, false, the zeros, and
    the empty string, list and object. *)
Definition empty_value (v : value) : Prop :=
  match v with
  | PNone => True
  | PBool false => True
  | PInt Z0 => True
  | PFloat (FFinite Z0 _) => True
  | PStr EmptyString => True
  | PList [] => True
  | PDict [] => True
  | _ => False
  end.

(** One character: a byte that begins it, and then continuation bytes
    only. *)
Fixpoint all_continuation (s : string) : bool :=
  match s with
  | EmptyString => true
  | String c rest => is_continuation c && all_continuation rest
  end.

Definition one_character (l : string) : Prop :=
  match l with
  | EmptyString => False
  | String c rest => is_continuation c = false /\ all_continuation rest = true
  end.

(** An environment with one variable. *)
Definition env_with (name value : string) : string -> option string :=
  fun n => if (n =? name) then Some value else None.

Definition empty_env : string -> option string := fun _ => None.

(* ===================================================================== *)
(** ** The pages a server holds *)
(* ===================================================================== *)

(** The two requests of a traversal, written out: the one for the first
    page, with the caller's filters, and the one for a next link. *)
Definition first_request (api_key : string) (f : filters) : request :=
  mk_request (PStr BASE_URL) (headers_of api_key)
    (Some (filter (fun kv => truthy (snd kv))
             [("page", PInt 1); ("per_page", per_page f);
              ("from", from_date f); ("to", to_date f);
              ("monitor_id", monitor_id f);
              ("heartbeat_id", heartbeat_id f)])).

Definition link_request (api_key : string) (next_url : value) : request :=
  mk_request next_url (headers_of api_key)
    (if eq_str next_url BASE_URL
     then Some [("page", PInt 1); ("per_page", PInt 50)]
     else None).

(** The response hands [page] over: its status is not an error status and
    its body decodes to [page]. *)
Definition delivers (resp : response) (page : value) : Prop :=
  ~ (400 <= status_code resp < 600)%Z /\
  (content resp = Json page \/ content resp = Lenient page).

(** The next link of a page with these entries is [v]; a page without
    [pagination], or without [next] in it, has the link [None]. *)
Definition next_link (entries : list (string * value)) (v : value) : Prop :=
  (lookup "pagination" entries = None /\ v = PNone) \/
  exists pagination,
    lookup "pagination" entries = Some (PDict pagination) /\
    (lookup "next" pagination = Some v \/
     (lookup "next" pagination = None /\ v = PNone)).



Section Pages.

Context {W : Type} `{HttpLayer W}.

(** [served api_key w req ds reqs w']: from the world [w], the request
    [req] is answered with a page, the request for that page's next link
    with a further page, and so on up to a page whose next link is absent
    or empty.  [ds] are the incidents of these pages, [reqs] the requests
    that were answered, [req] first, and [w'] is the world after the last
    answer. *)
Inductive served (api_key : string)
  : W -> request -> list (list value) -> list request -> W -> Prop :=
| served_last w req resp w' entries d v :
    http_get w req = (Responded resp, w') ->
    delivers resp (PDict entries) ->
    page_incidents (PDict entries) = Return d ->
    next_link entries v ->
    empty_value v ->
    served api_key w req [d] [req] w'
| served_more w req resp w1 entries d v ds reqs w' :
    http_get w req = (Responded resp, w1) ->
    delivers resp (PDict entries) ->
    page_incidents (PDict entries) = Return d ->
    next_link entries v ->
    ~ empty_value v ->
    served api_key w1 (link_request api_key v) ds reqs w' ->
    served api_key w req (d :: ds) (req :: reqs) w'.

(** The server never ends: whatever the request and the world, it answers
    with a page that can be read and whose next link is not empty. *)
Definition never_ends : Prop :=
  forall (w : W) (req : request),
  exists resp w' entries d v,
    http_get w req = (Responded resp, w') /\
    delivers resp (PDict entries) /\
    page_incidents (PDict entries) = Return d /\
    next_link entries v /\
    ~ empty_value v.

(** The spec's wording of termination: the traversal stops, one way or
    another, exactly when the pages served reach one without a next
    link. *)
Definition termination_as_specified (api_key : string) (f : filters)
    (st : state W) : Prop :=
  (exists fuel o st',
     fetch_all_incidents fuel api_key f st = (Some o, st')) <->
  (exists ds reqs w',
     served api_key (world st) (first_request api_key f) ds reqs w').

End Pages.

(** A server that answers by the URL asked, and stays as it is; an unknown
    URL is not found, and a URL that is not a string cannot be asked. *)
Record site : Type := mk_site {
  routes : list (string * reply)
}.

Fixpoint route (url : string) (rs : list (string * reply)) : option reply :=
  match rs with
  | [] => None
  | (u, r) :: rest => if (u =? url) then Some r else route url rest
  end.

#[export] Instance routed : HttpLayer site := {
  http_get w req :=
    match req_url req with
    | PStr url =>
        match route url (routes w) with
        | Some r => (r, w)
        | None => (Responded (mk_response 404 Malformed), w)
        end
    | _ => (Failed InvalidURL, w)
    end
}.

(** The spec's two pages, each at its URL. *)
Definition two_page_site : site :=
  mk_site [(BASE_URL, ok_reply first_of_two); ("U2", ok_reply second_of_two)].


(* ===================================================================== *)
(** ** Facts about Python values *)
(* ===================================================================== *)

Lemma truthy_string_or_none (v : value) :
  (v = PNone \/ exists s, v = PStr s) ->
  (truthy v = false <-> v = PNone \/ v = PStr "").
Proof.
  intros [-> | [s ->]]; simpl.
  - split; auto.
  - destruct s as [| c s]; simpl; split; auto.
    + discriminate.
    + intros [E | E]; discriminate E.
Qed.

Lemma get_not_dict (obj : value) (k : string) (default : value) :
  is_dict obj = false -> get obj k default = Raise AttributeError.
Proof. destruct obj; simpl; intros E; try reflexivity; discriminate E. Qed.

Lemma get_dict (entries : list (string * value)) (k : string) (default : value) :
  get (PDict entries) k default =
  Return (match lookup k entries with Some v => v | None => default end).
Proof. simpl. destruct (lookup k entries); reflexivity. Qed.

Lemma param_of_some (arg v : value) :
  param_of arg = Some v <-> truthy arg = true /\ v = arg.
Proof.
  unfold param_of. destruct (truthy arg); split.
  - intros E. injection E as <-. auto.
  - intros [_ ->]. reflexivity.
  - discriminate.
  - intros [E _]. discriminate E.
Qed.

(* ===================================================================== *)
(** ** Facts about the page fetcher *)
(* ===================================================================== *)

Section Fetcher.

Context {W : Type} `{HttpLayer W}.

(** One call of the fetcher is one request, and its outcome is read off
    the reply to that request. *)
Lemma fetch_incidents_page_run (api_key : string)
    (url page pp fd td mi hi : value) (st : state W) :
  let req := request_of api_key url page pp fd td mi hi in
  fetch_incidents_page api_key url page pp fd td mi hi st =
  (reply_outcome (fst (http_get (world st) req)),
   mk_state (snd (http_get (world st) req)) (sent st ++ [req])).
Proof.
  unfold fetch_incidents_page, request_of. cbv zeta.
  set (u := if negb (truthy url) then PStr BASE_URL else url).
  match goal with
  | |- context [mk_request u ?h (Some ?p)] =>
      set (headers := h); set (params := p)
  end.
  unfold bind, requests_get, raise_for_status, json, reply_outcome, ret, raise.
  destruct (eq_str u BASE_URL);
    (destruct (http_get (world st) _) as [[why | resp] w']; simpl;
     [ reflexivity
     | destruct (error_status (status_code resp)); reflexivity ]).
Qed.

End Fetcher.

(** The query of a first-page request, key by key. *)
Lemma request_of_base (api_key : string) (pp fd td mi hi : value) :
  let req := request_of api_key PNone (PInt 1) pp fd td mi hi in
  req_url req = PStr BASE_URL /\
  exists params,
    req_params req = Some params /\
    lookup "page" params = Some (PInt 1) /\
    lookup "per_page" params = param_of pp /\
    lookup "from" params = param_of fd /\
    lookup "to" params = param_of td /\
    lookup "monitor_id" params = param_of mi /\
    lookup "heartbeat_id" params = param_of hi.
Proof.
  unfold request_of, param_of. cbv zeta. simpl.
  split; [reflexivity |].
  eexists. split; [reflexivity |].
  destruct (truthy pp), (truthy fd), (truthy td), (truthy mi), (truthy hi);
    simpl; repeat split; reflexivity.
Qed.

(** The request of a continuation fetch: the link as it came, and a query
    only when the link is the base endpoint itself. *)
Lemma request_of_continuation (api_key : string) (next_url : value) :
  truthy next_url = true ->
  let req := request_of api_key next_url (PInt 1) (PInt 50)
               PNone PNone PNone PNone in
  req_url req = next_url /\
  req_params req =
    if eq_str next_url BASE_URL
    then Some [("page", PInt 1); ("per_page", PInt 50)]
    else None.
Proof.
  intros T. unfold request_of. cbv zeta. rewrite T. simpl.
  destruct (eq_str next_url BASE_URL); split; reflexivity.
Qed.

Lemma eq_str_true (v : value) (s : string) :
  eq_str v s = true <-> v = PStr s.
Proof.
  destruct v; simpl; split; try discriminate.
  - intros E. apply String.eqb_eq in E. now subst.
  - intros E. injection E as ->. apply String.eqb_refl.
Qed.

(* ===================================================================== *)
(** ** Facts about the loop *)
(* ===================================================================== *)

Section Traversal.

Context {W : Type} `{HttpLayer W}.

(** One pass through the loop body, by what the page in hand holds. *)
Lemma loop_body_run (api_key : string) (acc : list value) (page : value)
    (st : state W) :
  loop_body api_key acc page st =
  match page_incidents page with
  | Raise e => (Raise e, st)
  | Return d =>
      match page_next page with
      | Raise e => (Raise e, st)
      | Return next_url =>
          if truthy next_url
          then
            match fetch_next api_key next_url st with
            | (Return page', st') => (Return (Again (acc ++ d) page'), st')
            | (Raise e, st') => (Raise e, st')
            end
          else (Return (Break (acc ++ d)), st)
      end
  end.
Proof.
  unfold loop_body, page_incidents, page_next, bind, lift, extend, ret.
  destruct (get page "data" (PList [])) as [incidents_page | e] eqn:D;
    [| reflexivity].
  destruct (iterate incidents_page) as [d | e]; [| reflexivity].
  destruct (get page "pagination" (PDict [])) as [pagination | e];
    [| reflexivity].
  destruct (get pagination "next" PNone) as [next_url | e]; [| reflexivity].
  destruct (truthy next_url); simpl; [| reflexivity].
  destruct (fetch_next api_key next_url st) as [[page' | e] st']; reflexivity.
Qed.

(** A page that ends the traversal ends the loop in one pass, and no request
    is sent. *)
Lemma while_true_last (api_key : string) (acc : list value) (page : value)
    (d : list value) (st : state W) (fuel : nat) :
  last_page page d ->
  while_true (S fuel) api_key acc page st = (Some (Return (acc ++ d)), st).
Proof.
  intros [D [next_url [N T]]]. simpl.
  rewrite loop_body_run, D, N, T. reflexivity.
Qed.

(** The loop walks along [follows], one pass per page. *)
Lemma while_true_follows (api_key : string) (page page' : value)
    (st st' : state W) (ds : list (list value)) :
  follows api_key page st ds page' st' ->
  forall (fuel : nat) (acc : list value),
    while_true (List.length ds + fuel) api_key acc page st =
    while_true fuel api_key (acc ++ List.concat ds) page' st'.
Proof.
  induction 1 as [page st | page st d next_url page1 st1 ds page' st'
                              D N T F _ IH];
    intros fuel acc.
  - simpl. now rewrite app_nil_r.
  - simpl. rewrite loop_body_run, D, N, T, F, IH.
    now rewrite app_assoc.
Qed.

(** Each page followed costs one request. *)
Lemma follows_sent (api_key : string) (page page' : value)
    (st st' : state W) (ds : list (list value)) :
  follows api_key page st ds page' st' ->
  exists reqs, sent st' = sent st ++ reqs /\ List.length reqs = List.length ds.
Proof.
  induction 1 as [page st | page st d next_url page1 st1 ds page' st'
                              D N T F _ [reqs [E L]]].
  - exists []. now rewrite app_nil_r.
  - unfold fetch_next in F. rewrite fetch_incidents_page_run in F.
    injection F as _ F. subst st1. simpl in E.
    eexists (_ :: reqs). split.
    + rewrite E, <- app_assoc. reflexivity.
    + simpl. now rewrite L.
Qed.

Lemma fetch_first_sent (api_key : string) (f : filters) (st st' : state W)
    (o : outcome value) :
  fetch_first api_key f st = (o, st') ->
  sent st' = sent st ++
    [request_of api_key PNone (PInt 1) (per_page f) (from_date f) (to_date f)
       (monitor_id f) (heartbeat_id f)].
Proof.
  unfold fetch_first. rewrite fetch_incidents_page_run.
  intros E. injection E as _ <-. reflexivity.
Qed.

Lemma fetch_next_sent (api_key : string) (next_url : value)
    (st st' : state W) (o : outcome value) :
  fetch_next api_key next_url st = (o, st') ->
  sent st' = sent st ++
    [request_of api_key next_url (PInt 1) (PInt 50) PNone PNone PNone PNone].
Proof.
  unfold fetch_next. rewrite fetch_incidents_page_run.
  intros E. injection E as _ <-. reflexivity.
Qed.

(** A loop that returns has walked along [follows] to a last page. *)
Lemma while_true_returns (api_key : string) (fuel : nat) :
  forall (acc : list value) (page : value) (st st' : state W)
         (res : list value),
    while_true fuel api_key acc page st = (Some (Return res), st') ->
    exists ds pageN d,
      follows api_key page st ds pageN st' /\
      last_page pageN d /\
      res = acc ++ List.concat (ds ++ [d]).
Proof.
  induction fuel as [| fuel IH]; intros acc page st st' res; simpl.
  - discriminate.
  - rewrite loop_body_run.
    destruct (page_incidents page) as [d | e] eqn:D; [| discriminate].
    destruct (page_next page) as [next_url | e] eqn:N; [| discriminate].
    destruct (truthy next_url) eqn:T.
    + destruct (fetch_next api_key next_url st) as [[page1 | e] st1] eqn:F;
        [| discriminate].
      intros R. apply IH in R. destruct R as [ds [pageN [dN [Fs [L ->]]]]].
      exists (d :: ds), pageN, dN. split; [| split].
      * eapply follows_next; eassumption.
      * exact L.
      * simpl. now rewrite app_assoc.
    + intros R. injection R as <- <-.
      exists [], page, d. split; [| split].
      * apply follows_here.
      * split; [exact D |]. exists next_url. auto.
      * simpl. now rewrite app_nil_r.
Qed.

(** Whatever the loop does, each request it sends is a continuation
    request. *)
Lemma while_true_sent (api_key : string) (fuel : nat) :
  forall (acc : list value) (page : value) (st : state W),
  exists rest,
    sent (snd (while_true fuel api_key acc page st)) = sent st ++ rest /\
    Forall continuation_request rest.
Proof.
  induction fuel as [| fuel IH]; intros acc page st; simpl.
  - exists []. split; [now rewrite app_nil_r | constructor].
  - rewrite loop_body_run.
    destruct (page_incidents page) as [d | e];
      [| exists []; split; [now rewrite app_nil_r | constructor]].
    destruct (page_next page) as [next_url | e];
      [| exists []; split; [now rewrite app_nil_r | constructor]].
    destruct (truthy next_url) eqn:T;
      [| exists []; split; [now rewrite app_nil_r | constructor]].
    destruct (fetch_next api_key next_url st) as [[page1 | e] st1] eqn:F;
      pose proof (fetch_next_sent _ _ _ _ _ F) as S;
      destruct (request_of_continuation api_key next_url T) as [U P].
    + destruct (IH (acc ++ d) page1 st1) as [rest [E C]].
      eexists (_ :: rest). split.
      * rewrite E, S, <- app_assoc. reflexivity.
      * constructor; [| exact C]. split; rewrite U; [exact T | exact P].
    + eexists [_]. split; [exact S |].
      constructor; [| constructor]. split; rewrite U; [exact T | exact P].
Qed.

(** A page without [pagination], or without a [next] in it, or with a
    null or empty one, ends the traversal once its incidents are read. *)
Lemma next_absent_or_empty_last (entries : list (string * value))
    (d : list value) :
  page_incidents (PDict entries) = Return d ->
  next_absent_or_empty entries ->
  last_page (PDict entries) d.
Proof.
  intros D N. split; [exact D |].
  unfold page_next. rewrite get_dict.
  destruct N as [N | [pagination [N [X | [X | X]]]]]; rewrite N;
    rewrite get_dict; try rewrite X; eexists; split; reflexivity.
Qed.

End Traversal.

(* ===================================================================== *)
(** ** The claims *)
(* ===================================================================== *)

Section Claims.

Context {W : Type} `{HttpLayer W}.

(** C3, as the code has it.  The fetch that follows a next link goes to
    that link as it came.  It carries no query when the link differs from
    the base endpoint; in every case the query, if there is one, is
    [page=1, per_page=50] and holds none of the caller's filters.  This
    holds of every request after the first in a traversal. *)
Theorem continuation_fetch_query (api_key : string) :
  (forall (acc : list value) (page : value) (st : state W)
          (d : list value) (next_url : value),
     page_incidents page = Return d ->
     page_next page = Return next_url ->
     truthy next_url = true ->
     exists req,
       sent (snd (loop_body api_key acc page st)) = sent st ++ [req] /\
       req_url req = next_url /\
       (next_url <> PStr BASE_URL -> req_params req = None) /\
       (forall params, req_params req = Some params ->
          params = [("page", PInt 1); ("per_page", PInt 50)])) /\
  (forall (fuel : nat) (f : filters) (st : state W),
     exists first rest,
       sent (snd (fetch_all_incidents fuel api_key f st)) =
         sent st ++ first :: rest /\
       Forall continuation_request rest).
Proof.
  split.
  - intros acc page st d next_url D N T.
    rewrite loop_body_run, D, N, T.
    destruct (request_of_continuation api_key next_url T) as [U P].
    exists (request_of api_key next_url (PInt 1) (PInt 50)
              PNone PNone PNone PNone).
    split; [| split; [exact U | split]].
    + destruct (fetch_next api_key next_url st) as [[page' | e] st'] eqn:F;
        apply fetch_next_sent in F; exact F.
    + intros NE. rewrite P.
      destruct (eq_str next_url BASE_URL) eqn:E; [| reflexivity].
      apply eq_str_true in E. contradiction.
    + intros params. rewrite P.
      destruct (eq_str next_url BASE_URL); [| discriminate].
      intros E. injection E as <-. reflexivity.
  - intros fuel f st. unfold fetch_all_incidents.
    destruct (fetch_first api_key f st) as [[page1 | e] st1] eqn:F1;
      apply fetch_first_sent in F1.
    + destruct (while_true_sent api_key fuel [] page1 st1) as [rest [E C]].
      eexists _, rest. split; [| exact C].
      rewrite E, F1, <- app_assoc. reflexivity.
    + eexists _, []. split; [exact F1 | constructor].
Qed.

(** C4.  A failing fetch ends the traversal with that failure and nothing
    else: if the first fetch fails, one request has been sent; if the fetch
    of a later page fails, the requests sent are those of the pages read and
    the failing one.  The state is the one the failing fetch left, so no
    request follows it, and the outcome is the error, with no incidents. *)
Theorem fetch_failure_aborts (api_key : string) (f : filters) (st : state W) :
  (forall e st',
     fetch_first api_key f st = (Raise e, st') ->
     forall fuel,
       fetch_all_incidents fuel api_key f st = (Some (Raise e), st') /\
       exists req, sent st' = sent st ++ [req]) /\
  (forall page1 st1 ds page st2 d next_url e st' fuel,
     fetch_first api_key f st = (Return page1, st1) ->
     follows api_key page1 st1 ds page st2 ->
     page_incidents page = Return d ->
     page_next page = Return next_url ->
     truthy next_url = true ->
     fetch_next api_key next_url st2 = (Raise e, st') ->
     List.length ds < fuel ->
     fetch_all_incidents fuel api_key f st = (Some (Raise e), st') /\
     exists reqs,
       sent st' = sent st ++ reqs /\ List.length reqs = List.length ds + 2).
Proof.
  split.
  - intros e st' F1 fuel. unfold fetch_all_incidents. rewrite F1.
    split; [reflexivity |].
    apply fetch_first_sent in F1. eexists. exact F1.
  - intros page1 st1 ds page st2 d next_url e st' fuel F1 Fs D N T F Hfuel.
    split.
    + unfold fetch_all_incidents. rewrite F1.
      replace fuel with (List.length ds + S (fuel - S (List.length ds)))
        by lia.
      rewrite (while_true_follows _ _ _ _ _ _ Fs). simpl.
      rewrite loop_body_run, D, N, T, F. reflexivity.
    + apply fetch_first_sent in F1. apply fetch_next_sent in F.
      destruct (follows_sent _ _ _ _ _ _ Fs) as [reqs [E L]].
      eexists (_ :: reqs ++ [_]). split.
      * rewrite F, E, F1, <- !app_assoc. reflexivity.
      * simpl. rewrite List.length_app. simpl. lia.
Qed.

(** C6, as the code has it.  The first request of a traversal goes to the
    base endpoint with [page = 1]; [per_page] and each of [from], [to],
    [monitor_id] and [heartbeat_id] is in the query exactly when the
    caller's value for it is truthy (given, and neither zero nor the empty
    string), and then with that value. *)
Theorem first_request_query (fuel : nat) (api_key : string) (f : filters)
    (st : state W) :
  exists req rest,
    sent (snd (fetch_all_incidents fuel api_key f st)) =
      sent st ++ req :: rest /\
    req_url req = PStr BASE_URL /\
    exists params,
      req_params req = Some params /\
      lookup "page" params = Some (PInt 1) /\
      lookup "per_page" params = param_of (per_page f) /\
      lookup "from" params = param_of (from_date f) /\
      lookup "to" params = param_of (to_date f) /\
      lookup "monitor_id" params = param_of (monitor_id f) /\
      lookup "heartbeat_id" params = param_of (heartbeat_id f).
Proof.
  pose proof (request_of_base api_key (per_page f) (from_date f) (to_date f)
                (monitor_id f) (heartbeat_id f)) as [U P].
  unfold fetch_all_incidents.
  destruct (fetch_first api_key f st) as [[page1 | e] st1] eqn:F1;
    apply fetch_first_sent in F1.
  - destruct (while_true_sent api_key fuel [] page1 st1) as [rest [E _]].
    eexists _, rest. split; [| split; [exact U | exact P]].
    rewrite E, F1, <- app_assoc. reflexivity.
  - eexists _, []. split; [exact F1 | split; [exact U | exact P]].
Qed.

(** C7.  A page that can be read and whose [pagination] is absent, or
    whose [pagination.next] is absent, null or the empty string, ends the
    loop in the pass that reads it: the accumulator with the page's
    incidents is returned, and the state is untouched, so no request is
    sent. *)
Theorem absent_or_empty_next_ends (api_key : string) (acc d : list value)
    (entries : list (string * value)) (st : state W) (fuel : nat) :
  page_incidents (PDict entries) = Return d ->
  next_absent_or_empty entries ->
  while_true (S fuel) api_key acc (PDict entries) st =
    (Some (Return (acc ++ d)), st).
Proof.
  intros D N. apply while_true_last.
  now apply next_absent_or_empty_last.
Qed.

(** C8.  When the first page has no [data], or an empty one, and no
    continuation link, [fetch_all_incidents] returns the empty list, and
    the first request is the only one sent. *)
Theorem no_results_one_fetch (api_key : string) (f : filters)
    (st st1 : state W) (entries : list (string * value)) (fuel : nat) :
  fetch_first api_key f st = (Return (PDict entries), st1) ->
  (lookup "data" entries = None \/
   lookup "data" entries = Some (PList [])) ->
  next_absent_or_empty entries ->
  fetch_all_incidents (S fuel) api_key f st = (Some (Return []), st1) /\
  exists req, sent st1 = sent st ++ [req].
Proof.
  intros F1 D N. split.
  - unfold fetch_all_incidents. rewrite F1.
    apply (while_true_last api_key [] (PDict entries) [] st1 fuel).
    apply next_absent_or_empty_last; [| exact N].
    unfold page_incidents. rewrite get_dict.
    destruct D as [D | D]; rewrite D; reflexivity.
  - apply fetch_first_sent in F1. eexists. exact F1.
Qed.

(** C9.  When the page in hand has the base endpoint itself as its next
    link, the fetch that follows goes to the base endpoint with the query
    [page=1, per_page=50], the fetcher's defaults. *)
Theorem next_equal_to_base_gets_defaults (api_key : string)
    (acc d : list value) (page : value) (st : state W) :
  page_incidents page = Return d ->
  page_next page = Return (PStr BASE_URL) ->
  exists req,
    sent (snd (loop_body api_key acc page st)) = sent st ++ [req] /\
    req_url req = PStr BASE_URL /\
    req_params req = Some [("page", PInt 1); ("per_page", PInt 50)].
Proof.
  intros D N. rewrite loop_body_run, D, N.
  change (truthy (PStr BASE_URL)) with true. cbv iota.
  eexists. split; [| split].
  - destruct (fetch_next api_key (PStr BASE_URL) st) as [[page' | e] st'] eqn:F;
      apply fetch_next_sent in F; exact F.
  - reflexivity.
  - reflexivity.
Qed.

(** C10.  When a fetch of the traversal, the first or a later one, returns
    a body that is not a JSON object, [fetch_all_incidents] fails with an
    attribute error, which is neither an HttpError nor a DecodeError, and
    sends nothing more. *)
Theorem body_not_an_object_fails (api_key : string) (f : filters)
    (st st1 st' : state W) (page1 page : value) (ds : list (list value))
    (fuel : nat) :
  fetch_first api_key f st = (Return page1, st1) ->
  follows api_key page1 st1 ds page st' ->
  is_dict page = false ->
  List.length ds < fuel ->
  fetch_all_incidents fuel api_key f st = (Some (Raise AttributeError), st') /\
  classify AttributeError = None.
Proof.
  intros F1 Fs ND Hfuel. split; [| reflexivity].
  unfold fetch_all_incidents. rewrite F1.
  replace fuel with (List.length ds + S (fuel - S (List.length ds))) by lia.
  rewrite (while_true_follows _ _ _ _ _ _ Fs). simpl.
  rewrite loop_body_run. unfold page_incidents.
  rewrite (get_not_dict _ _ _ ND). reflexivity.
Qed.

End Claims.

(* ===================================================================== *)
(** ** The claims at work on the servers above *)
(* ===================================================================== *)

Lemma continuation_fetch_query_two_pages :
  exists req,
    sent (snd (loop_body (H := scripted) "key" [] first_of_two
                 (mk_state [ok_reply second_of_two] []))) = [] ++ [req] /\
    req_url req = PStr "U2" /\
    (PStr "U2" <> PStr BASE_URL -> req_params req = None) /\
    (forall params, req_params req = Some params ->
       params = [("page", PInt 1); ("per_page", PInt 50)]).
Proof.
  apply (proj1 (@continuation_fetch_query _ scripted "key") [] first_of_two
           (mk_state [ok_reply second_of_two] [])
           [incident 1; incident 2] (PStr "U2"));
    reflexivity.
Defined.

Lemma continuation_to_base_has_params :
  ~ continuations_without_params
      (sent (snd (fetch_all_incidents (H := scripted) 2 "key" monitor_42
                    (start base_then_end)))).
Proof.
  intros C. vm_compute in C.
  inversion C as [| req rest P _]. discriminate P.
Qed.

Lemma fetch_failure_aborts_page_then_error :
  (forall fuel,
     fetch_all_incidents (H := scripted) fuel "key" monitor_42
       (start [Failed ReadTimeout]) =
       (Some (Raise (RequestFailed ReadTimeout)),
        snd (fetch_first "key" monitor_42 (start [Failed ReadTimeout]))) /\
     exists req,
       sent (snd (fetch_first (H := scripted) "key" monitor_42
                    (start [Failed ReadTimeout]))) =
       sent (start [Failed ReadTimeout]) ++ [req]) /\
  (exists st',
     fetch_all_incidents (H := scripted) 2 "key" monitor_42
       (start page_then_error) = (Some (Raise (HTTPError 503)), st') /\
     exists reqs,
       sent st' = sent (start page_then_error) ++ reqs /\
       List.length reqs = List.length (@nil (list value)) + 2).
Proof.
  split.
  - apply (proj1 (@fetch_failure_aborts _ scripted "key" monitor_42
                    (start [Failed ReadTimeout]))).
    reflexivity.
  - eexists.
    eapply (proj2 (@fetch_failure_aborts _ scripted "key" monitor_42
                     (start page_then_error)))
      with (page1 := first_of_two) (page := first_of_two)
           (d := [incident 1; incident 2]) (next_url := PStr "U2").
    + reflexivity.
    + apply follows_here.
    + reflexivity.
    + reflexivity.
    + reflexivity.
    + reflexivity.
    + simpl. lia.
Defined.

Lemma monitor_id_zero_not_sent :
  exists req,
    hd_error (sent (snd (fetch_all_incidents (H := scripted) 1 "key"
                           monitor_0 (start two_pages)))) = Some req /\
    ~ first_request_as_specified monitor_0 req.
Proof.
  eexists. split; [reflexivity |].
  intros [_ [params [P [_ [_ [_ [_ [M _]]]]]]]].
  vm_compute in P. injection P as <-.
  vm_compute in M. discriminate M.
Qed.

Lemma absent_or_empty_next_ends_no_pagination :
  while_true (H := scripted) 1 "key" [incident 0]
    (PDict [("data", PList [incident 1])]) (start []) =
  (Some (Return ([incident 0] ++ [incident 1])), start []).
Proof.
  apply (@absent_or_empty_next_ends _ scripted).
  - reflexivity.
  - left. reflexivity.
Defined.

Lemma no_results_one_fetch_empty_object :
  exists st1,
    fetch_all_incidents (H := scripted) 1 "key" no_filters
      (start [ok_reply (PDict [])]) = (Some (Return []), st1) /\
    exists req, sent st1 = sent (start [ok_reply (PDict [])]) ++ [req].
Proof.
  eexists.
  eapply (@no_results_one_fetch _ scripted) with (entries := []).
  - reflexivity.
  - left. reflexivity.
  - left. reflexivity.
Defined.

Lemma next_equal_to_base_gets_defaults_back_to_base :
  exists req,
    sent (snd (loop_body (H := scripted) "key" [] back_to_base
                 (mk_state [ok_reply second_of_two] []))) = [] ++ [req] /\
    req_url req = PStr BASE_URL /\
    req_params req = Some [("page", PInt 1); ("per_page", PInt 50)].
Proof.
  apply (@next_equal_to_base_gets_defaults _ scripted "key" [] [incident 1]
           back_to_base (mk_state [ok_reply second_of_two] []));
    reflexivity.
Defined.

Lemma body_not_an_object_fails_array :
  exists st',
    fetch_all_incidents (H := scripted) 2 "key" monitor_42
      (start [ok_reply first_of_two; ok_reply (PList [incident 3])]) =
      (Some (Raise AttributeError), st') /\
    classify AttributeError = None.
Proof.
  eexists.
  eapply (@body_not_an_object_fails _ scripted) with
    (page1 := first_of_two) (page := PList [incident 3])
    (ds := [[incident 1; incident 2]]).
  - reflexivity.
  - eapply follows_next;
      [reflexivity | reflexivity | reflexivity | reflexivity
      | apply follows_here].
  - reflexivity.
  - simpl. lia.
Defined.

(* ===================================================================== *)
(** ** More on the page fetcher *)
(* ===================================================================== *)

Lemma request_of_headers (api_key : string)
    (url page pp fd td mi hi : value) :
  req_headers (request_of api_key url page pp fd td mi hi) =
  headers_of api_key.
Proof.
  unfold request_of. cbv zeta.
  match goal with
  | |- context [if ?b then _ else _] =>
      match b with eq_str _ _ => destruct b; reflexivity end
  end.
Qed.

(** The query as the assignments build it is the six arguments in their
    fixed order, less the ones that are not truthy. *)
Lemma request_of_query (api_key : string) (url page pp fd td mi hi : value) :
  truthy url = false \/ url = PStr BASE_URL ->
  request_of api_key url page pp fd td mi hi =
  mk_request (PStr BASE_URL) (headers_of api_key)
    (Some (filter (fun kv => truthy (snd kv))
             [("page", page); ("per_page", pp); ("from", fd); ("to", td);
              ("monitor_id", mi); ("heartbeat_id", hi)])).
Proof.
  intros U. unfold request_of, headers_of. cbv zeta.
  assert (E : (if negb (truthy url) then PStr BASE_URL else url)
              = PStr BASE_URL).
  { destruct U as [U | ->]; [rewrite U |]; reflexivity. }
  rewrite E. change (eq_str (PStr BASE_URL) BASE_URL) with true. cbv iota.
  f_equal. f_equal. simpl.
  destruct (truthy page), (truthy pp), (truthy fd), (truthy td),
    (truthy mi), (truthy hi); reflexivity.
Qed.

Lemma request_of_other_url (api_key : string)
    (url page pp fd td mi hi : value) :
  truthy url = true ->
  url <> PStr BASE_URL ->
  request_of api_key url page pp fd td mi hi =
  mk_request url (headers_of api_key) None.
Proof.
  intros T NE. unfold request_of, headers_of. cbv zeta. rewrite T. simpl.
  destruct (eq_str url BASE_URL) eqn:E; [| reflexivity].
  apply eq_str_true in E. contradiction.
Qed.

Section FetcherMore.

Context {W : Type} `{HttpLayer W}.

(** The requests of the loop are the fetcher's requests for links that were
    not empty. *)
Lemma while_true_requests (api_key : string) (fuel : nat) :
  forall (acc : list value) (page : value) (st : state W),
  exists rest,
    sent (snd (while_true fuel api_key acc page st)) = sent st ++ rest /\
    Forall (fun req =>
              exists next_url,
                truthy next_url = true /\
                req = request_of api_key next_url (PInt 1) (PInt 50)
                        PNone PNone PNone PNone) rest.
Proof.
  induction fuel as [| fuel IH]; intros acc page st; simpl.
  - exists []. split; [now rewrite app_nil_r | constructor].
  - rewrite loop_body_run.
    destruct (page_incidents page) as [d | e];
      [| exists []; split; [now rewrite app_nil_r | constructor]].
    destruct (page_next page) as [next_url | e];
      [| exists []; split; [now rewrite app_nil_r | constructor]].
    destruct (truthy next_url) eqn:T;
      [| exists []; split; [now rewrite app_nil_r | constructor]].
    destruct (fetch_next api_key next_url st) as [[page1 | e] st1] eqn:F;
      pose proof (fetch_next_sent _ _ _ _ _ F) as S.
    + destruct (IH (acc ++ d) page1 st1) as [rest [E C]].
      eexists (_ :: rest). split.
      * rewrite E, S, <- app_assoc. reflexivity.
      * constructor; [| exact C]. exists next_url. auto.
    + eexists [_]. split; [exact S |].
      constructor; [| constructor]. exists next_url. auto.
Qed.

(** Every request of a traversal, the first one included, is one the
    fetcher built with the same key. *)
Lemma fetch_all_incidents_requests (fuel : nat) (api_key : string)
    (f : filters) (st : state W) :
  exists reqs,
    sent (snd (fetch_all_incidents fuel api_key f st)) = sent st ++ reqs /\
    reqs <> [] /\
    Forall (fun req =>
              exists url page pp fd td mi hi,
                req = request_of api_key url page pp fd td mi hi) reqs.
Proof.
  unfold fetch_all_incidents.
  destruct (fetch_first api_key f st) as [[page1 | e] st1] eqn:F1;
    apply fetch_first_sent in F1.
  - destruct (while_true_requests api_key fuel [] page1 st1) as [rest [E C]].
    eexists (_ :: rest). split; [| split].
    + rewrite E, F1, <- app_assoc. reflexivity.
    + discriminate.
    + constructor; [do 7 eexists; reflexivity |].
      eapply Forall_impl; [| exact C].
      intros req [next_url [_ ->]]. do 7 eexists. reflexivity.
  - eexists [_]. split; [exact F1 | split; [discriminate |]].
    constructor; [do 7 eexists; reflexivity | constructor].
Qed.

(** X1.  Whatever the server does and however the traversal ends, it sends
    at least one request, and every request it sends carries the same two
    headers: the bearer token made of the key, and the JSON content
    type. *)
Theorem every_request_carries_the_key (fuel : nat) (api_key : string)
    (f : filters) (st : state W) :
  exists reqs,
    sent (snd (fetch_all_incidents fuel api_key f st)) = sent st ++ reqs /\
    reqs <> [] /\
    Forall (fun req => req_headers req = headers_of api_key) reqs.
Proof.
  destruct (fetch_all_incidents_requests fuel api_key f st)
    as [reqs [E [NE C]]].
  exists reqs. split; [exact E | split; [exact NE |]].
  eapply Forall_impl; [| exact C].
  intros req [url [page [pp [fd [td [mi [hi ->]]]]]]].
  apply request_of_headers.
Qed.

(** X2.  A call of [fetch_incidents_page] whose [url] is [None], empty, or
    the base endpoint itself is the same call: the same request, the same
    outcome. *)
Theorem url_absent_empty_or_base (api_key : string)
    (url page pp fd td mi hi : value) (st : state W) :
  truthy url = false \/ url = PStr BASE_URL ->
  fetch_incidents_page api_key url page pp fd td mi hi st =
  fetch_incidents_page api_key PNone page pp fd td mi hi st.
Proof.
  intros U. rewrite !fetch_incidents_page_run. cbv zeta.
  rewrite (request_of_query api_key url) by exact U.
  rewrite (request_of_query api_key PNone) by (left; reflexivity).
  reflexivity.
Qed.

(** X3.  With a [url] that is not empty and is not the base endpoint, the
    page, the page size and the filters play no part: the request has no
    query, and the outcome is the same whatever they are. *)
Theorem other_url_ignores_arguments (api_key : string)
    (url page pp fd td mi hi page' pp' fd' td' mi' hi' : value)
    (st : state W) :
  truthy url = true ->
  url <> PStr BASE_URL ->
  fetch_incidents_page api_key url page pp fd td mi hi st =
  fetch_incidents_page api_key url page' pp' fd' td' mi' hi' st /\
  sent (snd (fetch_incidents_page api_key url page pp fd td mi hi st)) =
  sent st ++ [mk_request url (headers_of api_key) None].
Proof.
  intros T NE. rewrite !fetch_incidents_page_run. cbv zeta.
  rewrite (request_of_other_url api_key url page) by assumption.
  rewrite (request_of_other_url api_key url page') by assumption.
  split; reflexivity.
Qed.

(** X4.  A request to the base endpoint has for its query the arguments
    [page], [per_page], [from], [to], [monitor_id], [heartbeat_id], in this
    order, each under its own name, without those that are not truthy: a
    key is never there twice, and never with a null, zero or empty
    value. *)
Theorem query_is_the_truthy_arguments (api_key : string)
    (url page pp fd td mi hi : value) (st : state W) :
  truthy url = false \/ url = PStr BASE_URL ->
  sent (snd (fetch_incidents_page api_key url page pp fd td mi hi st)) =
  sent st ++
  [mk_request (PStr BASE_URL) (headers_of api_key)
     (Some (filter (fun kv => truthy (snd kv))
              [("page", page); ("per_page", pp); ("from", fd); ("to", td);
               ("monitor_id", mi); ("heartbeat_id", hi)]))].
Proof.
  intros U. rewrite fetch_incidents_page_run. cbv zeta. simpl.
  now rewrite (request_of_query api_key url) by exact U.
Qed.

(** X5.  The loop only appends: started with an accumulator that already
    holds incidents, it sends the same requests and ends the same way as
    started with the empty one, and what it returns is the accumulator
    followed by what it returns from the empty one. *)
Theorem loop_only_appends (api_key : string) (fuel : nat) :
  forall (acc : list value) (page : value) (st : state W),
    while_true fuel api_key acc page st =
    (match fst (while_true fuel api_key [] page st) with
     | Some (Return res) => Some (Return (acc ++ res))
     | other => other
     end,
     snd (while_true fuel api_key [] page st)).
Proof.
  induction fuel as [| fuel IH]; intros acc page st; simpl.
  - reflexivity.
  - rewrite !loop_body_run.
    destruct (page_incidents page) as [d | e]; [| reflexivity].
    destruct (page_next page) as [next_url | e]; [| reflexivity].
    destruct (truthy next_url); [| reflexivity].
    destruct (fetch_next api_key next_url st) as [[page1 | e] st1];
      [| reflexivity].
    rewrite (IH (acc ++ d)), (IH ([] ++ d)). simpl.
    destruct (fst (while_true fuel api_key [] page1 st1)) as [[res | e] |];
      try reflexivity.
    now rewrite app_assoc.
Qed.

End FetcherMore.

(* ===================================================================== *)
(** ** More on the traversal: pages that are not as expected *)
(* ===================================================================== *)

Lemma truthy_false_iff (v : value) : truthy v = false <-> empty_value v.
Proof.
  destruct v as [| [|] | [| p | p] | [[| p | p] e | n |] | [| c s]
                 | [| x l] | [| x l]];
    simpl; split; intros E; try exact I; try reflexivity;
    try discriminate E; try contradiction.
Qed.

Lemma iterate_scalar (v : value) : scalar v -> iterate v = Raise TypeError.
Proof. destruct v; simpl; intros Sc; try reflexivity; contradiction. Qed.

Lemma concat_empty_cons (x : string) (xs : list string) :
  String.concat "" (x :: xs) = String.append x (String.concat "" xs).
Proof.
  destruct xs as [| y ys]; simpl.
  - clear. induction x as [| c x IH]; simpl; [| rewrite <- IH]; reflexivity.
  - reflexivity.
Qed.

(** The characters of a string, put end to end, are the string. *)
Lemma code_points_concat (s : string) :
  String.concat "" (code_points s) = s.
Proof.
  induction s as [| c rest IH]; [reflexivity |].
  cbn [code_points]. destruct (continues rest).
  - destruct (code_points rest) as [| chunk chunks].
    + simpl in IH. now subst rest.
    + rewrite concat_empty_cons in *. simpl. now rewrite IH.
  - rewrite concat_empty_cons. simpl. now rewrite IH.
Qed.

(** The first piece begins where the string begins and goes on with
    continuation bytes only; each later piece is one character. *)
Lemma code_points_pieces (s : string) :
  match code_points s with
  | [] => s = EmptyString
  | chunk :: chunks =>
      (exists c t r,
         chunk = String c t /\ s = String c r /\
         all_continuation t = true) /\
      Forall one_character chunks
  end.
Proof.
  induction s as [| c rest IH]; [reflexivity |].
  cbn [code_points]. destruct (continues rest) eqn:C.
  - destruct (code_points rest) as [| chunk chunks].
    + split; [| constructor]. exists c, EmptyString, rest. auto.
    + destruct IH as [[c' [t [r [-> [-> A]]]]] F].
      split; [| exact F].
      exists c, (String c' t), (String c' r).
      split; [reflexivity |]. split; [reflexivity |].
      simpl in *. now rewrite C, A.
  - split; [exists c, EmptyString, rest; auto |].
    destruct (code_points rest) as [| chunk chunks]; [constructor |].
    destruct IH as [[c' [t [r [-> [-> A]]]]] F].
    constructor; [| exact F]. simpl in *. auto.
Qed.

Lemma code_points_characters (s : string) :
  continues s = false -> Forall one_character (code_points s).
Proof.
  intros C. pose proof (code_points_pieces s) as P.
  destruct (code_points s) as [| chunk chunks]; [constructor |].
  destruct P as [[c [t [r [-> [-> A]]]]] F].
  constructor; [| exact F]. simpl in *. auto.
Qed.

Example code_points_two_characters :
  code_points "h€" = ["h"; "€"] /\ String.length "h€" = 4.
Proof. split; reflexivity. Qed.

Section TraversalMore.

Context {W : Type} `{HttpLayer W}.

(** X6.  When a page of the traversal, the first or a later one, has a
    [data] that is null, a boolean or a number, [fetch_all_incidents]
    fails with a type error, which is neither an HttpError nor a
    DecodeError; the incidents of the pages before are not returned and
    nothing more is sent. *)
Theorem data_not_iterable_fails (api_key : string) (f : filters)
    (st st1 st' : state W) (page1 : value)
    (entries : list (string * value)) (v : value)
    (ds : list (list value)) (fuel : nat) :
  fetch_first api_key f st = (Return page1, st1) ->
  follows api_key page1 st1 ds (PDict entries) st' ->
  lookup "data" entries = Some v ->
  scalar v ->
  List.length ds < fuel ->
  fetch_all_incidents fuel api_key f st = (Some (Raise TypeError), st') /\
  classify TypeError = None.
Proof.
  intros F1 Fs D Sc Hfuel. split; [| reflexivity].
  unfold fetch_all_incidents. rewrite F1.
  replace fuel with (List.length ds + S (fuel - S (List.length ds))) by lia.
  rewrite (while_true_follows _ _ _ _ _ _ Fs). simpl.
  rewrite loop_body_run. unfold page_incidents.
  rewrite get_dict, D, (iterate_scalar _ Sc). reflexivity.
Qed.

(** X7.  When a page of the traversal has a [pagination] that is there
    but is not an object, null included, [fetch_all_incidents] fails with
    an attribute error: the page's incidents have been read, but they are
    not returned, and nothing more is sent. *)
Theorem pagination_not_an_object_fails (api_key : string) (f : filters)
    (st st1 st' : state W) (page1 : value)
    (entries : list (string * value)) (d : list value) (pagination : value)
    (ds : list (list value)) (fuel : nat) :
  fetch_first api_key f st = (Return page1, st1) ->
  follows api_key page1 st1 ds (PDict entries) st' ->
  page_incidents (PDict entries) = Return d ->
  lookup "pagination" entries = Some pagination ->
  is_dict pagination = false ->
  List.length ds < fuel ->
  fetch_all_incidents fuel api_key f st = (Some (Raise AttributeError), st').
Proof.
  intros F1 Fs D P ND Hfuel.
  unfold fetch_all_incidents. rewrite F1.
  replace fuel with (List.length ds + S (fuel - S (List.length ds))) by lia.
  rewrite (while_true_follows _ _ _ _ _ _ Fs). simpl.
  rewrite loop_body_run, D. unfold page_next.
  rewrite get_dict, P, (get_not_dict _ _ _ ND). reflexivity.
Qed.

(** X8.  For a page that can be read and whose [pagination] holds a
    [next], one pass of the loop ends the traversal there, returning the
    accumulator with the page's incidents and sending nothing, exactly
    when that [next] is null, false, a zero, or an empty string, list or
    object.  With any other [next] the pass sends a request. *)
Theorem loop_stops_on_empty_values (api_key : string) (acc d : list value)
    (entries pagination : list (string * value)) (next_url : value)
    (st : state W) :
  page_incidents (PDict entries) = Return d ->
  lookup "pagination" entries = Some (PDict pagination) ->
  lookup "next" pagination = Some next_url ->
  (while_true 1 api_key acc (PDict entries) st =
     (Some (Return (acc ++ d)), st) <->
   empty_value next_url) /\
  (~ empty_value next_url ->
   sent (snd (while_true 1 api_key acc (PDict entries) st)) =
   sent st ++
   [request_of api_key next_url (PInt 1) (PInt 50) PNone PNone PNone PNone]).
Proof.
  intros D P N.
  assert (PN : page_next (PDict entries) = Return next_url).
  { unfold page_next. now rewrite get_dict, P, get_dict, N. }
  simpl. rewrite loop_body_run, D, PN.
  destruct (truthy next_url) eqn:T.
  - assert (NE : ~ empty_value next_url).
    { intros E. apply truthy_false_iff in E. congruence. }
    assert (Q : sent (snd (match fetch_next api_key next_url st with
                           | (Return page', st') =>
                               (Return (Again (acc ++ d) page'), st')
                           | (Raise e, st') => (Raise e, st')
                           end)) =
                sent st ++
                [request_of api_key next_url (PInt 1) (PInt 50)
                   PNone PNone PNone PNone]).
    { destruct (fetch_next api_key next_url st) as [[page' | e] st'] eqn:F;
        apply fetch_next_sent in F; exact F. }
    destruct (fetch_next api_key next_url st) as [[page' | e] st'];
      (split; [split; [intros R | intros E; contradiction] | intros _; exact Q]).
    + discriminate R.
    + discriminate R.
  - apply truthy_false_iff in T. split.
    + split; [intros _; exact T | reflexivity].
    + intros NE. contradiction.
Qed.

(** X9.  A [data] that is an object or a string is taken as a sequence
    too: a last page whose [data] is an object adds the object's keys, in
    their order, to the result, and one whose [data] is a string adds its
    characters, one string each: pieces of one character that make up the
    string again when put end to end. *)
Theorem data_object_or_string (api_key : string) (acc : list value)
    (entries : list (string * value)) (st : state W) (fuel : nat) :
  next_absent_or_empty entries ->
  (forall fields,
     lookup "data" entries = Some (PDict fields) ->
     while_true (S fuel) api_key acc (PDict entries) st =
     (Some (Return (acc ++ map (fun kv => PStr (fst kv)) fields)), st)) /\
  (forall s,
     continues s = false ->
     lookup "data" entries = Some (PStr s) ->
     exists letters,
       while_true (S fuel) api_key acc (PDict entries) st =
       (Some (Return (acc ++ map PStr letters)), st) /\
       String.concat "" letters = s /\
       Forall one_character letters).
Proof.
  intros N. split.
  - intros fields D. apply while_true_last.
    apply next_absent_or_empty_last; [| exact N].
    unfold page_incidents. now rewrite get_dict, D.
  - intros s C D. exists (code_points s). split; [| split].
    + apply while_true_last.
      apply next_absent_or_empty_last; [| exact N].
      unfold page_incidents. now rewrite get_dict, D.
    + apply code_points_concat.
    + now apply code_points_characters.
Qed.

End TraversalMore.

(* ===================================================================== *)
(** ** The command line *)
(* ===================================================================== *)

Lemma nonempty_truthy (k : string) : k <> "" -> truthy (PStr k) = true.
Proof.
  intros NE. simpl. apply negb_true_iff. now apply String.eqb_neq.
Qed.

Lemma no_key_falsy (o : option string) :
  truthy (of_str o) = false <-> no_key o.
Proof.
  unfold no_key. destruct o as [[| c s] |]; simpl; split; intros E; auto;
    try discriminate E.
  destruct E as [E | E]; discriminate E.
Qed.

(** The key that [a or b] yields, when it yields one. *)
Lemma py_or_resolved (args : Cli.namespace)
    (getenv : string -> option string) (k : string) :
  resolved_key args getenv k ->
  py_or (Cli.api_key args) (getenv "BETTERSTACK_API_KEY") = Some k.
Proof.
  intros [NE [E | [NK E]]]; unfold py_or.
  - rewrite E. simpl of_str. now rewrite (nonempty_truthy k NE).
  - apply no_key_falsy in NK. now rewrite NK.
Qed.

Lemma py_or_truthy (args : Cli.namespace)
    (getenv : string -> option string) :
  truthy (of_str (py_or (Cli.api_key args) (getenv "BETTERSTACK_API_KEY")))
    = true ->
  exists k, resolved_key args getenv k.
Proof.
  unfold py_or, resolved_key.
  destruct (truthy (of_str (Cli.api_key args))) eqn:A.
  - intros _. destruct (Cli.api_key args) as [k |]; [| discriminate A].
    exists k. split; [| now left].
    intros ->. discriminate A.
  - apply no_key_falsy in A. intros E.
    destruct (getenv "BETTERSTACK_API_KEY") as [k |]; [| discriminate E].
    exists k. split; [| now right].
    intros ->. discriminate E.
Qed.

Section CommandLineFacts.

Context {W : Type} `{HttpLayer W}.

(** With a key, [main] is the traversal with that key and the options of
    the command line, and then the print. *)
Lemma main_with_key (fuel : nat) (args : Cli.namespace)
    (getenv : string -> option string) (k : string) (st : state W) :
  resolved_key args getenv k ->
  main fuel args getenv st =
  match fetch_all_incidents fuel k (filters_of args) st with
  | (None, st') => (None, mk_console [] [], st')
  | (Some (Raise e), st') => (Some (Uncaught e), mk_console [] [], st')
  | (Some (Return incidents), st') =>
      (Some Returned, mk_console [PList incidents] [], st')
  end.
Proof.
  intros R. unfold main. cbv zeta.
  rewrite (py_or_resolved _ _ _ R). simpl of_str.
  now rewrite (nonempty_truthy k (proj1 R)).
Qed.

Lemma main_state (fuel : nat) (args : Cli.namespace)
    (getenv : string -> option string) (k : string) (st : state W) :
  resolved_key args getenv k ->
  snd (main fuel args getenv st) =
  snd (fetch_all_incidents fuel k (filters_of args) st).
Proof.
  intros R. rewrite (main_with_key _ _ _ _ _ R).
  destruct (fetch_all_incidents fuel k (filters_of args) st)
    as [[[res | e] |] st']; reflexivity.
Qed.

(** X10.  Without a key, that is with none or an empty one on the command
    line and none or an empty one in the environment, [main] writes its
    one line to [stderr], prints nothing, sends no request and leaves
    with status 1; and this is the only way [main] leaves through
    [sys.exit]. *)
Theorem main_without_key (fuel : nat) (args : Cli.namespace)
    (getenv : string -> option string) (st : state W) :
  (no_key (Cli.api_key args) /\ no_key (getenv "BETTERSTACK_API_KEY") ->
   main fuel args getenv st =
   (Some (SystemExit 1), mk_console [] [NO_KEY_MESSAGE], st)) /\
  (forall code,
     fst (fst (main fuel args getenv st)) = Some (SystemExit code) ->
     no_key (Cli.api_key args) /\ no_key (getenv "BETTERSTACK_API_KEY")).
Proof.
  split.
  - intros [A E]. apply no_key_falsy in A. apply no_key_falsy in E.
    unfold main, py_or. cbv zeta. now rewrite A, E.
  - intros code. unfold main. cbv zeta.
    destruct (truthy (of_str (py_or (Cli.api_key args)
                                (getenv "BETTERSTACK_API_KEY")))) eqn:T;
      simpl.
    + destruct (fetch_all_incidents fuel _ (filters_of args) st)
        as [[[res | e] |] st']; discriminate.
    + intros _. unfold py_or in T.
      destruct (truthy (of_str (Cli.api_key args))) eqn:A.
      * congruence.
      * split; now apply no_key_falsy.
Qed.

(** X11.  The key of the command line, when it is not empty, is the one
    every request carries, whatever the environment holds; the key of the
    environment is used only when the command line gives none or an empty
    one. *)
Theorem main_key_precedence (fuel : nat) (args : Cli.namespace)
    (getenv : string -> option string) (k : string) (st : state W) :
  resolved_key args getenv k ->
  exists reqs,
    sent (snd (main fuel args getenv st)) = sent st ++ reqs /\
    reqs <> [] /\
    Forall (fun req => req_headers req = headers_of k) reqs.
Proof.
  intros R. rewrite (main_state _ _ _ _ _ R).
  destruct (fetch_all_incidents_requests fuel k (filters_of args) st)
    as [reqs [E [NE C]]].
  exists reqs. split; [exact E | split; [exact NE |]].
  eapply Forall_impl; [| exact C].
  intros req [url [page [pp [fd [td [mi [hi ->]]]]]]].
  apply request_of_headers.
Qed.

(** X12.  [main] prints all or nothing: either it returns, and then it
    has printed one JSON document, the list that [fetch_all_incidents]
    returned for the resolved key and the options of the command line; or
    it does not return (no key, a failure of the traversal, a traversal
    still running) and then nothing has gone to [stdout]. *)
Theorem main_prints_all_or_nothing (fuel : nat) (args : Cli.namespace)
    (getenv : string -> option string) (st : state W) :
  let r := main fuel args getenv st in
  (fst (fst r) = Some Returned /\
   exists k incidents,
     resolved_key args getenv k /\
     fetch_all_incidents fuel k (filters_of args) st =
       (Some (Return incidents), snd r) /\
     snd (fst r) = mk_console [PList incidents] []) \/
  (fst (fst r) <> Some Returned /\ stdout (snd (fst r)) = []).
Proof.
  cbv zeta.
  destruct (truthy (of_str (py_or (Cli.api_key args)
                              (getenv "BETTERSTACK_API_KEY")))) eqn:T.
  - destruct (py_or_truthy _ _ T) as [k R].
    rewrite (main_with_key _ _ _ _ _ R).
    destruct (fetch_all_incidents fuel k (filters_of args) st)
      as [[[res | e] |] st'] eqn:F; simpl.
    + left. split; [reflexivity |]. exists k, res. auto.
    + right. split; [discriminate | reflexivity].
    + right. split; [discriminate | reflexivity].
  - unfold main. cbv zeta. rewrite T. simpl.
    right. split; [discriminate | reflexivity].
Qed.

(** X13.  With a key, the first request of [main] goes to the base
    endpoint with a query made of [page = 1] and of the options of the
    command line under their names, in the order [per_page], [from],
    [to], [monitor_id], [heartbeat_id]; an option that was not given, a
    number that is 0 and a date that is empty are left out. *)
Theorem main_first_request (fuel : nat) (args : Cli.namespace)
    (getenv : string -> option string) (k : string) (st : state W) :
  resolved_key args getenv k ->
  exists rest,
    sent (snd (main fuel args getenv st)) =
    sent st ++
    mk_request (PStr BASE_URL) (headers_of k)
      (Some (filter (fun kv => truthy (snd kv))
               [("page", PInt 1);
                ("per_page", PInt (Cli.per_page args));
                ("from", of_str (Cli.from_date args));
                ("to", of_str (Cli.to_date args));
                ("monitor_id", of_int (Cli.monitor_id args));
                ("heartbeat_id", of_int (Cli.heartbeat_id args))]))
    :: rest.
Proof.
  intros R. rewrite (main_state _ _ _ _ _ R).
  unfold fetch_all_incidents.
  destruct (fetch_first k (filters_of args) st) as [[page1 | e] st1] eqn:F1;
    apply fetch_first_sent in F1;
    rewrite request_of_query in F1 by (left; reflexivity).
  - destruct (while_true_sent k fuel [] page1 st1) as [rest [E _]].
    exists rest. rewrite E, F1, <- app_assoc. reflexivity.
  - exists []. exact F1.
Qed.

End CommandLineFacts.

(* ===================================================================== *)
(** ** These facts at work *)
(* ===================================================================== *)

Lemma url_absent_empty_or_base_empty_url :
  fetch_incidents_page (H := scripted) "key" (PStr "") (PInt 1) (PInt 2)
    PNone PNone (PInt 42) PNone (start two_pages) =
  fetch_incidents_page (H := scripted) "key" PNone (PInt 1) (PInt 2)
    PNone PNone (PInt 42) PNone (start two_pages).
Proof.
  apply (@url_absent_empty_or_base _ scripted).
  left. reflexivity.
Defined.

Lemma other_url_ignores_arguments_u2 :
  fetch_incidents_page (H := scripted) "key" (PStr "U2") (PInt 3) (PInt 2)
    (PStr "2024-01-01") PNone (PInt 42) PNone (start two_pages) =
  fetch_incidents_page (H := scripted) "key" (PStr "U2") (PInt 1) (PInt 50)
    PNone PNone PNone PNone (start two_pages) /\
  sent (snd (fetch_incidents_page (H := scripted) "key" (PStr "U2")
               (PInt 3) (PInt 2) (PStr "2024-01-01") PNone (PInt 42) PNone
               (start two_pages))) =
  sent (start two_pages) ++ [mk_request (PStr "U2") (headers_of "key") None].
Proof.
  apply (@other_url_ignores_arguments _ scripted).
  - reflexivity.
  - discriminate.
Defined.

Lemma query_is_the_truthy_arguments_zero_page_size :
  sent (snd (fetch_incidents_page (H := scripted) "key" PNone (PInt 1)
               (PInt 0) (PStr "2024-01-01") (PStr "") (PInt 42) PNone
               (start two_pages))) =
  sent (start two_pages) ++
  [mk_request (PStr BASE_URL) (headers_of "key")
     (Some (filter (fun kv => truthy (snd kv))
              [("page", PInt 1); ("per_page", PInt 0);
               ("from", PStr "2024-01-01"); ("to", PStr "");
               ("monitor_id", PInt 42); ("heartbeat_id", PNone)]))].
Proof.
  apply (@query_is_the_truthy_arguments _ scripted).
  left. reflexivity.
Defined.

Lemma data_not_iterable_fails_null :
  exists st',
    fetch_all_incidents (H := scripted) 1 "key" no_filters
      (start [ok_reply (PDict [("data", PNone)])]) =
      (Some (Raise TypeError), st') /\
    classify TypeError = None.
Proof.
  eexists.
  eapply (@data_not_iterable_fails _ scripted) with
    (entries := [("data", PNone)]) (ds := []) (v := PNone).
  - reflexivity.
  - apply follows_here.
  - reflexivity.
  - exact I.
  - simpl. lia.
Defined.

Lemma pagination_not_an_object_fails_null :
  exists st',
    fetch_all_incidents (H := scripted) 1 "key" no_filters
      (start [ok_reply (PDict [("data", PList [incident 1]);
                               ("pagination", PNone)])]) =
      (Some (Raise AttributeError), st').
Proof.
  eexists.
  eapply (@pagination_not_an_object_fails _ scripted) with
    (entries := [("data", PList [incident 1]); ("pagination", PNone)])
    (ds := []) (d := [incident 1]) (pagination := PNone).
  - reflexivity.
  - apply follows_here.
  - reflexivity.
  - reflexivity.
  - reflexivity.
  - simpl. lia.
Defined.

Lemma loop_stops_on_empty_values_zero :
  while_true (H := scripted) 1 "key" [incident 0]
    (page_of [incident 1] (PInt 0)) (start two_pages) =
  (Some (Return ([incident 0] ++ [incident 1])), start two_pages).
Proof.
  apply (proj1 (@loop_stops_on_empty_values _ scripted "key" [incident 0]
                  [incident 1]
                  [("data", PList [incident 1]);
                   ("pagination", PDict [("next", PInt 0)])]
                  [("next", PInt 0)] (PInt 0) (start two_pages)
                  eq_refl eq_refl eq_refl)).
  exact I.
Defined.

Lemma data_object_or_string_keys :
  while_true (H := scripted) 1 "key" []
    (PDict [("data", PDict [("a", PInt 1); ("b", PInt 2)])]) (start []) =
  (Some (Return ([] ++ [PStr "a"; PStr "b"])), start []) /\
  exists letters,
    while_true (H := scripted) 1 "key" []
      (PDict [("data", PStr "h€")]) (start []) =
    (Some (Return ([] ++ map PStr letters)), start []) /\
    String.concat "" letters = "h€" /\
    Forall one_character letters.
Proof.
  split.
  - apply (proj1 (@data_object_or_string _ scripted "key" []
                    [("data", PDict [("a", PInt 1); ("b", PInt 2)])]
                    (start []) 0 (or_introl eq_refl))
             [("a", PInt 1); ("b", PInt 2)]).
    reflexivity.
  - apply (proj2 (@data_object_or_string _ scripted "key" []
                    [("data", PStr "h€")]
                    (start []) 0 (or_introl eq_refl))
             "h€"); reflexivity.
Defined.

Lemma main_without_key_empty_option :
  main (H := scripted) 5
    (Cli.mk_namespace (Some "") None None None None 50) empty_env
    (start two_pages) =
  (Some (SystemExit 1), mk_console [] [NO_KEY_MESSAGE], start two_pages).
Proof.
  apply (proj1 (@main_without_key _ scripted 5
                  (Cli.mk_namespace (Some "") None None None None 50)
                  empty_env (start two_pages))).
  split; [right | left]; reflexivity.
Defined.

Lemma main_key_precedence_both_given :
  exists reqs,
    sent (snd (main (H := scripted) 5
                 (Cli.mk_namespace (Some "cli") None None (Some 42%Z) None 2)
                 (env_with "BETTERSTACK_API_KEY" "env")
                 (start two_pages))) =
    sent (start two_pages) ++ reqs /\
    reqs <> [] /\
    Forall (fun req => req_headers req = headers_of "cli") reqs.
Proof.
  apply (@main_key_precedence _ scripted).
  split; [discriminate | left; reflexivity].
Defined.

Lemma main_first_request_zero_page_size :
  exists rest,
    sent (snd (main (H := scripted) 5
                 (Cli.mk_namespace None (Some "2024-01-01") None (Some 0%Z)
                    None 0)
                 (env_with "BETTERSTACK_API_KEY" "env")
                 (start two_pages))) =
    sent (start two_pages) ++
    mk_request (PStr BASE_URL) (headers_of "env")
      (Some (filter (fun kv => truthy (snd kv))
               [("page", PInt 1);
                ("per_page", PInt 0);
                ("from", PStr "2024-01-01");
                ("to", PNone);
                ("monitor_id", PInt 0);
                ("heartbeat_id", PNone)]))
    :: rest.
Proof.
  apply (@main_first_request _ scripted 5
           (Cli.mk_namespace None (Some "2024-01-01") None (Some 0%Z) None 0)
           (env_with "BETTERSTACK_API_KEY" "env") "env" (start two_pages)).
  split; [discriminate | right].
  split; [left |]; reflexivity.
Defined.

(* ===================================================================== *)
(** ** The fetcher and the reply it gets *)
(* ===================================================================== *)

Lemma error_status_true (s : Z) :
  error_status s = true <-> (400 <= s < 600)%Z.
Proof.
  unfold error_status. rewrite andb_true_iff, Z.leb_le, Z.ltb_lt. tauto.
Qed.

Lemma error_status_false (s : Z) :
  error_status s = false <-> ~ (400 <= s < 600)%Z.
Proof.
  rewrite <- error_status_true. destruct (error_status s); split; intros E;
    try reflexivity; try discriminate E; try (intros X; discriminate X).
  exfalso. apply E. reflexivity.
Qed.

(** A reply turns into a page exactly when its response delivers it. *)
Lemma reply_outcome_return (r : reply) (page : value) :
  reply_outcome r = Return page <->
  exists resp, r = Responded resp /\ delivers resp page.
Proof.
  unfold delivers. destruct r as [why | resp]; simpl.
  - split; [discriminate | intros [resp [E _]]; discriminate E].
  - destruct (error_status (status_code resp)) eqn:S.
    + apply error_status_true in S. split; [discriminate |].
      intros [resp' [E [NS _]]]. injection E as <-. contradiction.
    + apply error_status_false in S. split.
      * intros D. exists resp. split; [reflexivity |]. split; [exact S |].
        destruct (content resp) as [v | v | | json []]; simpl in D;
          try discriminate D; injection D as ->; auto.
      * intros [resp' [E [_ [C | C]]]]; injection E as <-; now rewrite C.
Qed.

Lemma request_of_first (api_key : string) (f : filters) :
  request_of api_key PNone (PInt 1) (per_page f) (from_date f) (to_date f)
    (monitor_id f) (heartbeat_id f) = first_request api_key f.
Proof. now rewrite request_of_query by (left; reflexivity). Qed.

Lemma request_of_link (api_key : string) (next_url : value) :
  truthy next_url = true ->
  request_of api_key next_url (PInt 1) (PInt 50) PNone PNone PNone PNone =
  link_request api_key next_url.
Proof.
  intros T. unfold request_of, link_request, headers_of. cbv zeta.
  rewrite T. simpl. destruct (eq_str next_url BASE_URL); reflexivity.
Qed.

Lemma not_empty_truthy (v : value) : ~ empty_value v <-> truthy v = true.
Proof.
  rewrite <- truthy_false_iff. destruct (truthy v); split; intros E;
    try reflexivity; try discriminate; try (intros X; discriminate X).
  exfalso. apply E. reflexivity.
Qed.

(** The next link as the loop reads it is the next link of the page. *)
Lemma page_next_link (entries : list (string * value)) (v : value) :
  page_next (PDict entries) = Return v <-> next_link entries v.
Proof.
  unfold page_next, next_link. rewrite get_dict.
  destruct (lookup "pagination" entries) as [pagination |] eqn:P.
  - destruct pagination as [| b | n | x | s | items | pg];
      try (split; [discriminate |];
           intros [[E _] | [pg [E _]]]; discriminate E).
    rewrite get_dict. destruct (lookup "next" pg) as [x |] eqn:N; split.
    + intros E. injection E as <-. right. exists pg. auto.
    + intros [[E _] | [pg' [E [X | [X _]]]]]; try discriminate E.
      * injection E as <-. congruence.
      * injection E as <-. congruence.
    + intros E. injection E as <-. right. exists pg. auto.
    + intros [[E _] | [pg' [E [X | [_ ->]]]]]; try discriminate E.
      * injection E as <-. congruence.
      * reflexivity.
  - simpl. split.
    + intros E. injection E as <-. left. auto.
    + intros [[_ ->] | [pg [E _]]]; [reflexivity | discriminate E].
Qed.

Lemma page_incidents_dict (page : value) (d : list value) :
  page_incidents page = Return d -> exists entries, page = PDict entries.
Proof.
  destruct page; try discriminate. intros _. eexists. reflexivity.
Qed.

(* ===================================================================== *)
(** ** The traversal and the pages served *)
(* ===================================================================== *)

Section Served.

Context {W : Type} `{HttpLayer W}.

(** What a fetch makes of the reply to its request. *)
Lemma fetch_next_run (api_key : string) (next_url : value) (st : state W) :
  truthy next_url = true ->
  fetch_next api_key next_url st =
  (reply_outcome (fst (http_get (world st) (link_request api_key next_url))),
   mk_state (snd (http_get (world st) (link_request api_key next_url)))
     (sent st ++ [link_request api_key next_url])).
Proof.
  intros T. unfold fetch_next. rewrite fetch_incidents_page_run. cbv zeta.
  now rewrite (request_of_link api_key next_url T).
Qed.

Lemma fetch_first_run (api_key : string) (f : filters) (st : state W) :
  fetch_first api_key f st =
  (reply_outcome (fst (http_get (world st) (first_request api_key f))),
   mk_state (snd (http_get (world st) (first_request api_key f)))
     (sent st ++ [first_request api_key f])).
Proof.
  unfold fetch_first. rewrite fetch_incidents_page_run. cbv zeta.
  now rewrite request_of_first.
Qed.


(** The loop, holding the page that answered [req], walks through the pages
    served and returns their incidents. *)
Lemma served_loop (api_key : string) (w w' : W) (req : request)
    (ds : list (list value)) (reqs : list request) :
  served api_key w req ds reqs w' ->
  forall (log : list request) (acc : list value) (fuel : nat),
    List.length ds <= fuel ->
    exists resp w1 page,
      http_get w req = (Responded resp, w1) /\
      reply_outcome (Responded resp) = Return page /\
      while_true fuel api_key acc page (mk_state w1 (log ++ [req])) =
      (Some (Return (acc ++ List.concat ds)), mk_state w' (log ++ reqs)).
Proof.
  induction 1 as [w req resp w' entries d v G Dl D N E
                 | w req resp w1 entries d v ds reqs w' G Dl D N NE _ IH];
    intros log acc fuel Hfuel;
    (destruct fuel as [| fuel]; [simpl in Hfuel; lia |]);
    exists resp; eexists; exists (PDict entries);
    (split; [exact G |]);
    (split; [apply reply_outcome_return; eauto |]);
    simpl; rewrite loop_body_run, D;
    apply page_next_link in N; rewrite N.
  - apply truthy_false_iff in E. rewrite E.
    now rewrite app_nil_r.
  - apply not_empty_truthy in NE. rewrite NE.
    rewrite (fetch_next_run api_key v _ NE). simpl world. simpl sent.
    destruct (IH (log ++ [req]) (acc ++ d) fuel) as [resp2 [w2 [page2 [G2 [R2 Run]]]]];
      [simpl in Hfuel; lia |].
    rewrite G2. simpl fst. simpl snd. rewrite R2, Run.
    now rewrite <- !app_assoc.
Qed.

(** The pages served to the first request are the traversal's result. *)
Lemma fetch_all_incidents_served (api_key : string) (f : filters)
    (st : state W) (ds : list (list value)) (reqs : list request) (w' : W)
    (fuel : nat) :
  served api_key (world st) (first_request api_key f) ds reqs w' ->
  List.length ds <= fuel ->
  fetch_all_incidents fuel api_key f st =
  (Some (Return (List.concat ds)), mk_state w' (sent st ++ reqs)).
Proof.
  intros S Hfuel. unfold fetch_all_incidents. rewrite fetch_first_run.
  destruct (served_loop _ _ _ _ _ _ S (sent st) [] fuel Hfuel)
    as [resp [w1 [page [G [R Run]]]]].
  rewrite G. simpl fst. simpl snd. now rewrite R, Run.
Qed.

(** A loop that returns was served, from the reply that gave it its page
    on, pages up to one without a next link. *)
Lemma while_true_returns_served (api_key : string) (fuel : nat) :
  forall (acc : list value) (page : value) (st st' : state W)
         (res : list value) (w0 : W) (req : request) (resp : response),
    while_true fuel api_key acc page st = (Some (Return res), st') ->
    http_get w0 req = (Responded resp, world st) ->
    reply_outcome (Responded resp) = Return page ->
    exists ds reqs w', served api_key w0 req ds reqs w'.
Proof.
  induction fuel as [| fuel IH];
    intros acc page st st' res w0 req resp; cbn [while_true].
  - discriminate.
  - rewrite loop_body_run.
    destruct (page_incidents page) as [d | e] eqn:D; [| discriminate].
    destruct (page_incidents_dict _ _ D) as [entries ->].
    destruct (page_next (PDict entries)) as [v | e] eqn:N; [| discriminate].
    apply page_next_link in N.
    intros Run G R. apply reply_outcome_return in R.
    destruct R as [resp' [E Dl]]. injection E as <-.
    destruct (truthy v) eqn:T.
    + rewrite (fetch_next_run api_key v st T) in Run.
      destruct (http_get (world st) (link_request api_key v))
        as [r w2] eqn:G2.
      simpl fst in Run. simpl snd in Run.
      destruct (reply_outcome r) as [page2 | e] eqn:R2; [| discriminate].
      pose proof R2 as R2'. apply reply_outcome_return in R2'.
      destruct R2' as [resp2 [-> _]].
      destruct (IH _ _ _ _ _ (world st) (link_request api_key v) resp2
                  Run G2 R2) as [ds [reqs [w' S]]].
      exists (d :: ds), (req :: reqs), w'.
      eapply served_more; eauto. now apply not_empty_truthy.
    + exists [d], [req], (world st).
      eapply served_last; eauto. now apply truthy_false_iff.
Qed.

(** Against a server that never ends, the loop uses up whatever fuel it is
    given, one request for each pass. *)
Lemma while_true_never_ends (api_key : string) (fuel : nat) :
  never_ends ->
  forall (acc d : list value) (entries : list (string * value)) (v : value)
         (st : state W),
    page_incidents (PDict entries) = Return d ->
    next_link entries v ->
    ~ empty_value v ->
    exists st',
      while_true fuel api_key acc (PDict entries) st = (None, st') /\
      List.length (sent st') = List.length (sent st) + fuel.
Proof.
  intros NEv. induction fuel as [| fuel IH]; intros acc d entries v st D N NE;
    simpl.
  - exists st. split; [reflexivity | lia].
  - rewrite loop_body_run, D. apply page_next_link in N. rewrite N.
    apply not_empty_truthy in NE. rewrite NE.
    rewrite (fetch_next_run api_key v st NE).
    destruct (NEv (world st) (link_request api_key v))
      as [resp [w1 [entries1 [d1 [v1 [G [Dl [D1 [N1 NE1]]]]]]]]].
    rewrite G. simpl fst. simpl snd.
    assert (R : reply_outcome (Responded resp) = Return (PDict entries1))
      by (apply reply_outcome_return; eauto).
    rewrite R.
    destruct (IH (acc ++ d) d1 entries1 v1
                (mk_state w1 (sent st ++ [link_request api_key v]))
                D1 N1 NE1) as [st' [Run L]].
    exists st'. split; [exact Run |].
    rewrite L. simpl. rewrite List.length_app. simpl. lia.
Qed.


(** C2, as the code has it.  [fetch_all_incidents] returns exactly when
    the pages served, from the reply to the first request on and then one
    next link after the other, reach a page that can be read and whose
    next link is absent or empty.  No count of pages stops the loop:
    against a server whose every page has a next link that is not empty,
    the traversal is still running after any number of passes, with one
    more request sent for each pass. *)
Theorem fetch_all_incidents_termination (api_key : string) (f : filters)
    (st : state W) :
  ((exists fuel res st',
      fetch_all_incidents fuel api_key f st = (Some (Return res), st')) <->
   (exists ds reqs w',
      served api_key (world st) (first_request api_key f) ds reqs w')) /\
  (never_ends ->
   forall fuel, exists st',
     fetch_all_incidents fuel api_key f st = (None, st') /\
     List.length (sent st') = List.length (sent st) + S fuel).
Proof.
  split; [split |].
  - intros [fuel [res [st' Run]]].
    unfold fetch_all_incidents in Run. rewrite fetch_first_run in Run.
    destruct (http_get (world st) (first_request api_key f))
      as [r w1] eqn:G.
    simpl fst in Run. simpl snd in Run.
    destruct (reply_outcome r) as [page | e] eqn:R; [| discriminate].
    pose proof R as R'. apply reply_outcome_return in R'.
    destruct R' as [resp [-> _]].
    exact (while_true_returns_served api_key fuel _ _ _ _ _
             (world st) (first_request api_key f) resp Run G R).
  - intros [ds [reqs [w' S]]].
    exists (List.length ds), (List.concat ds), (mk_state w' (sent st ++ reqs)).
    now apply fetch_all_incidents_served.
  - intros NEv fuel.
    unfold fetch_all_incidents. rewrite fetch_first_run.
    destruct (NEv (world st) (first_request api_key f))
      as [resp [w1 [entries [d [v [G [Dl [D [N NE]]]]]]]]].
    rewrite G. simpl fst. simpl snd.
    assert (R : reply_outcome (Responded resp) = Return (PDict entries))
      by (apply reply_outcome_return; eauto).
    rewrite R.
    destruct (while_true_never_ends api_key fuel NEv [] d entries v
                (mk_state w1 (sent st ++ [first_request api_key f]))
                D N NE) as [st' [Run L]].
    exists st'. split; [exact Run |].
    rewrite L. simpl. rewrite List.length_app. simpl. lia.
Qed.

End Served.

Section FetcherOutcome.

Context {W : Type} `{HttpLayer W}.


End FetcherOutcome.

(* ===================================================================== *)
(** ** The pages, the loop's end and the fetcher's outcome at work *)
(* ===================================================================== *)

(** The site of the two pages serves them, the second at the first one's
    next link. *)
Lemma two_page_site_served :
  served (H := routed) "key" (world (start two_page_site))
    (first_request "key" monitor_42)
    [[incident 1; incident 2]; [incident 3]]
    [first_request "key" monitor_42; link_request "key" (PStr "U2")]
    two_page_site.
Proof.
  eapply served_more with
    (entries := [("data", PList [incident 1; incident 2]);
                 ("pagination", PDict [("next", PStr "U2")])])
    (v := PStr "U2").
  - reflexivity.
  - split; [simpl; lia | left; reflexivity].
  - reflexivity.
  - right. eexists. split; [reflexivity | left; reflexivity].
  - simpl. intros [].
  - eapply served_last with
      (entries := [("data", PList [incident 3]);
                   ("pagination", PDict [("next", PNone)])])
      (v := PNone).
    + reflexivity.
    + split; [simpl; lia | left; reflexivity].
    + reflexivity.
    + right. eexists. split; [reflexivity | left; reflexivity].
    + exact I.
Defined.


Lemma endless_never_ends : never_ends (H := endless).
Proof.
  intros w req.
  exists (mk_response 200
            (Json (page_of [incident 7] (PStr "https://example.org/more")))),
    w,
    [("data", PList [incident 7]);
     ("pagination", PDict [("next", PStr "https://example.org/more")])],
    [incident 7], (PStr "https://example.org/more").
  split; [reflexivity |].
  split; [split; [simpl; lia | left; reflexivity] |].
  split; [reflexivity |].
  split; [right; eexists; split; [reflexivity | left; reflexivity] |].
  simpl. intros [].
Defined.

Lemma fetch_all_incidents_termination_endless :
  (exists fuel res st',
     fetch_all_incidents (H := routed) fuel "key" monitor_42
       (start two_page_site) = (Some (Return res), st')) /\
  (exists st',
     fetch_all_incidents (H := endless) 100 "key" no_filters (start tt) =
       (None, st') /\
     List.length (sent st') = List.length (sent (start tt)) + 101).
Proof.
  split.
  - apply (proj2 (proj1 (@fetch_all_incidents_termination _ routed "key"
                           monitor_42 (start two_page_site)))).
    eexists _, _, _. exact two_page_site_served.
  - apply (proj2 (@fetch_all_incidents_termination _ endless "key" no_filters
                    (start tt))).
    exact endless_never_ends.
Defined.

(** A traversal that a server error stops has stopped, and no page without
    a next link was served. *)
Lemma error_stops_without_last_page :
  ~ termination_as_specified (H := scripted) "key" monitor_42
      (start page_then_error).
Proof.
  intros [T _].
  destruct T as [ds [reqs [w' Sv]]].
  - exists 1, (Raise (HTTPError 503)). eexists. reflexivity.
  - pose proof (fetch_all_incidents_served (H := scripted) "key" monitor_42
                  (start page_then_error) ds reqs w' (S (List.length ds)) Sv)
      as R.
    assert (L : List.length ds <= S (List.length ds)) by lia.
    specialize (R L). discriminate R.
Qed.

